(** * libearth.parser.rss2 — the RSS 2.0 parser, embedded in Rocq

    The module [libearth/parser/rss2.py] maps an RSS 2.0 tree onto the
    Atom-like feed model.  Its handlers and its entry point [parse_rss2]
    are translated below from the Python source.  What it imports from
    sibling modules of the library is either taken as a parameter (the
    sub-parsers of [rss_base], the tree parser, the format detector and
    the standard library's [urlparse] are the fields of the class
    [Collaborators]; the clock and the network fetcher make up a [World])
    or, for the dispatch of [ParserBase] and for [make_legal_as_atom],
    modelled from the written specification. *)

From Stdlib Require Import ZArith Ascii String Lia.
From stdpp Require Import base option list gmap strings.

Open Scope Z_scope.

(** ** Exceptions and fallible results *)

(** The exception classes the module can raise or let through. *)
Inductive Error : Type :=
  | AttributeError
  | ValueError
  | TypeError
  | MalformedDocument
  | FetchError
  | UnknownFormat
  | OtherError (msg : string).

Inductive Result (A : Type) : Type :=
  | Ok (a : A)
  | Err (e : Error).
Arguments Ok {A} a.
Arguments Err {A} e.

#[global] Instance Result_ret : MRet Result := fun _ a => Ok a.
#[global] Instance Result_bind : MBind Result := fun _ _ f m =>
  match m with
  | Ok a => f a
  | Err e => Err e
  end.

Definition is_Ok {A} (r : Result A) : Prop := exists a, r = Ok a.
Definition is_Err {A} (r : Result A) : Prop := exists e, r = Err e.

(** ** Tree nodes *)

(** An element of the parsed tree: namespace URI ([None] for an element
    without one), local name, text ([None] when the element has no text),
    attributes, children in document order. *)
#[warnings="-register-all"] Inductive Element : Type := mkElement {
  ns : option string;
  tag : string;
  text : option string;
  attrib : gmap string string;
  children : list Element
}.

(** [element.get(key)] *)
Definition get (element : Element) (key : string) : option string :=
  attrib element !! key.

(** [element.get(key, default)] *)
Definition get_default (element : Element) (key dflt : string) : string :=
  default dflt (attrib element !! key).

(** A plain name given to [find]/[findall] selects the children carrying
    that tag and no namespace. *)
Definition has_tag (name : string) (e : Element) : bool :=
  match ns e with
  | None => String.eqb (tag e) name
  | Some _ => false
  end.

Definition findall (name : string) (e : Element) : list Element :=
  List.filter (has_tag name) (children e).

Definition find (name : string) (e : Element) : option Element :=
  head (findall name e).

(** ** The canonical records this module builds *)

Record Link : Type := mkLink {
  link_uri : option string;
  link_relation : option string;
  link_mimetype : option string
}.

Record Category : Type := mkCategory {
  term : option string;
  scheme_uri : option string
}.

Record Generator : Type := mkGenerator {
  generator_uri : option string;
  generator_value : option string
}.

(** An absolute point in time. *)
Definition datetime : Type := Z.

(** ** GUID_PATTERN

    [^(\{{0,1}([0-9a-fA-F]){8}-([0-9a-fA-F]){4}-([0-9a-fA-F]){4}-
       ([0-9a-fA-F]){4}-([0-9a-fA-F]){12}\}{0,1})$]

    The pattern is read as a backtracking matcher in continuation-passing
    style: a piece takes the matcher of what follows it. *)

Definition Matcher : Type := string -> bool.

(** [[0-9a-fA-F]] *)
Definition hexdigit (c : ascii) : bool :=
  let n := nat_of_ascii c in
  ((48 <=? n) && (n <=? 57) || (97 <=? n) && (n <=? 102)
   || (65 <=? n) && (n <=? 70))%nat.

Definition re_class (p : ascii -> bool) (k : Matcher) : Matcher := fun s =>
  match s with
  | String c s' => p c && k s'
  | EmptyString => false
  end.

Definition re_char (c : string) : Matcher -> Matcher :=
  match c with
  | String a EmptyString => re_class (Ascii.eqb a)
  | _ => fun _ _ => false
  end.

(** [r{0,1}], greedy: first with [r], then without. *)
Definition re_opt (r : Matcher -> Matcher) (k : Matcher) : Matcher :=
  fun s => r k s || k s.

(** [r{n}] *)
Fixpoint re_rep (n : nat) (r : Matcher -> Matcher) (k : Matcher) : Matcher :=
  match n with
  | O => k
  | S n' => r (re_rep n' r k)
  end.

(** [$] without the MULTILINE flag: at the end of the string, or just
    before a newline that ends the string. *)
Definition newline : string := String (ascii_of_nat 10) EmptyString.

Definition re_dollar : Matcher := fun s =>
  String.eqb s EmptyString || String.eqb s newline.

Definition hex_run (n : nat) : Matcher -> Matcher := re_rep n (re_class hexdigit).

(** The five groups of hexadecimal digits with their hyphens, followed by
    what [k] matches. *)
Definition uuid_groups (k : Matcher) : Matcher :=
  hex_run 8 (re_char "-"
  (hex_run 4 (re_char "-"
  (hex_run 4 (re_char "-"
  (hex_run 4 (re_char "-"
  (hex_run 12 k)))))))).

(** [GUID_PATTERN.match(s)] as a truth value. *)
Definition GUID_PATTERN_match : Matcher :=
  re_opt (re_char "{") (uuid_groups (re_opt (re_char "}") re_dollar)).

(** The textual form of a UUID, 8-4-4-4-12 hexadecimal digits and nothing
    else, and the URN built on it ([urn:uuid:] followed by that form):
    what the specification calls the canonical grammar and the
    canonicalized identifier. *)
Definition re_end : Matcher := fun s => String.eqb s EmptyString.

Definition uuid_text : Matcher := uuid_groups re_end.

Definition canonical_urn (id : string) : bool :=
  String.prefix "urn:uuid:" id
  && uuid_text (String.substring 9 (String.length id - 9) id).

(** ** The world outside the call

    What one invocation observes of its surroundings: the clock, read when
    the feed is normalised, and the network, reached through [open_url]
    (the content that [open_url(url).read()] delivers, or the failure of
    the fetch). *)
Record World : Type := mkWorld {
  now : datetime;
  open_url : option string -> Result string
}.

(** ** Collaborators

    The records of [libearth.feed] that only the absent sub-parsers build,
    the time-zone objects and the crawler hint are opaque types. *)
Class Types : Type := {
  tzinfo : Type;
  Text : Type;
  Person : Type;
  Content : Type;
  Source : Type;
  CrawlerHint : Type
}.

Section Rss2.

Context {T : Types}.

(** [RSSSession(feed_url, default_tzinfo)] *)
Record RSSSession : Type := mkRSSSession {
  feed_url : option string;
  default_tzinfo : tzinfo
}.

(** What a handler returns: [(value, session)], [value] possibly [None],
    unless it raises. *)
Abbreviation Parsed A := (Result (option A * RSSSession)).

(** A parser as [autodiscovery.get_format] selects one: it has the
    signature of [parse_rss2]. *)
Definition ParseEngine : Type :=
  World -> string -> option string -> bool -> Result (Source * option CrawlerHint).

(** What the module imports: the sub-parsers of [rss_base] the handlers
    delegate to, the time-zone guess, the default namespace of the
    document an element belongs to (as the tree parser knows it, [None]
    when the document declares none), the namespace constants of [atom]
    and [rss_base], [compat.etree.fromstring] and
    [util.normalize_xml_encoding], the scheme that
    [urlparse.urlparse(text).scheme] yields (or the exception [urlparse]
    raises), and [autodiscovery.get_format]. *)
Class Collaborators : Type := {
  datetime_parser : Element -> RSSSession -> Parsed datetime;
  person_parser : Element -> RSSSession -> Parsed Person;
  text_parser : Element -> RSSSession -> Parsed Text;
  subtitle_parser : Element -> RSSSession -> Parsed Text;
  link_parser : Element -> RSSSession -> Parsed Link;
  content_parser : Element -> RSSSession -> Parsed Content;
  guess_default_tzinfo : Element -> option string -> tzinfo;
  document_namespace : Element -> option string;
  ATOM_XMLNS_SET : list string;
  CONTENT_XMLNS : string;
  fromstring : string -> Result Element;
  normalize_xml_encoding : string -> string;
  urlparse_scheme : option string -> Result string;
  get_format : string -> Result ParseEngine
}.

Context {C : Collaborators}.

(** *** Handlers *)

(** [parse_datetime], [parse_person], [parse_text], [parse_subtitle],
    [parse_link], [parse_content] hand their arguments to [rss_base]. *)
Definition parse_datetime (element : Element) (session : RSSSession)
  : Parsed datetime := datetime_parser element session.

Definition parse_person (element : Element) (session : RSSSession)
  : Parsed Person := person_parser element session.

Definition parse_text (element : Element) (session : RSSSession)
  : Parsed Text := text_parser element session.

Definition parse_subtitle (element : Element) (session : RSSSession)
  : Parsed Text := subtitle_parser element session.

Definition parse_link (element : Element) (session : RSSSession)
  : Parsed Link := link_parser element session.

Definition parse_content (element : Element) (session : RSSSession)
  : Parsed Content := content_parser element session.

(** [parse_category] *)
Definition parse_category (element : Element) (session : RSSSession)
  : Parsed Category :=
  Ok (Some (mkCategory (text element) (attrib element !! "domain")), session).

(** [parse_atom_link] *)
Definition parse_atom_link (element : Element) (session : RSSSession)
  : Parsed Link :=
  let link := mkLink (get element "href")
                     (Some (get_default element "rel" "alternate"))
                     (get element "type") in
  Ok (Some link, session).

(** [parse_generator]: only [ValueError] is caught; [generator or ...]
    falls back to the raw text. *)
Definition parse_generator (element : Element) (session : RSSSession)
  : Parsed Generator :=
  generator ←
    match urlparse_scheme (text element) with
    | Ok scheme =>
        if bool_decide (scheme ∈ ["http"; "https"])
        then Ok (Some (mkGenerator (text element) None))
        else Ok None
    | Err ValueError => Ok None
    | Err e => Err e
    end;
  Ok (Some (default (mkGenerator None (text element)) generator), session).

(** [parse_enclosure] *)
Definition parse_enclosure (element : Element) (session : RSSSession)
  : Parsed Link :=
  Ok (Some (mkLink (get element "url") (Some "enclosure") (get element "type")),
      session).

(** [parse_source]: no failure of the fetch, of the format detection or of
    the selected parser is caught. *)
Definition parse_source (w : World) (element : Element) (session : RSSSession)
  : Parsed Source :=
  let url := get element "url" in
  xml ← open_url w url;
  parser ← get_format xml;
  '(source, _) ← parser w xml url false;
  Ok (Some source, session).

(** [parse_comments]: [Link(uri=element.text, relation='discussion')] *)
Definition parse_comments (element : Element) (session : RSSSession)
  : Parsed Link :=
  Ok (Some (mkLink (text element) (Some "discussion") None), session).

(** [parse_guid].  [element.text.startswith] raises [AttributeError] when
    the element has no text. *)
Definition parse_guid (element : Element) (session : RSSSession)
  : Parsed string :=
  let isPermalink := get element "isPermalink" in
  match text element with
  | None => Err AttributeError
  | Some t =>
      if String.prefix "http://" t
         && negb (bool_decide (isPermalink = Some "False"))
      then Ok (Some t, session)
      else if GUID_PATTERN_match t
      then Ok (Some ("urn:uuid:" +:+ t), session)
      else Ok (None, session)
  end.

(** *** Values and target entities *)

(** Whatever a handler can hand to the dispatch. *)
Inductive Value : Type :=
  | VString (s : string)
  | VDatetime (d : datetime)
  | VText (t : Text)
  | VPerson (p : Person)
  | VCategory (c : Category)
  | VLink (l : Link)
  | VGenerator (g : Generator)
  | VContent (c : Content)
  | VSource (s : Source).

Inductive EntityClass : Type := Feed | Entry.

(** Modelled from the spec: the classes [Feed] and [Entry] of
    [libearth.feed] are absent; section 3 of the specification describes
    the target entity as a mutable record of named scalar fields and named
    ordered collections.  An entity holds its attributes by name, as
    Python objects do.  Scalar attributes that were never written are
    absent from [scalars]; [entries] is [None] until it is assigned. *)
#[warnings="-register-all"] Inductive Entity : Type := mkEntity {
  class_of : EntityClass;
  scalars : gmap string Value;
  collections : gmap string (list Value);
  entries : option (list Entity)
}.

(** [Feed()], [Entry()] *)
Definition new (c : EntityClass) : Entity := mkEntity c ∅ ∅ None.

Definition scalar (name : string) (e : Entity) : option Value :=
  scalars e !! name.

Definition collection (name : string) (e : Entity) : list Value :=
  default [] (collections e !! name).

(** [entity.name = v] for a scalar attribute *)
Definition set_scalar (name : string) (v : Value) (e : Entity) : Entity :=
  mkEntity (class_of e) (<[name := v]> (scalars e)) (collections e) (entries e).

(** [entity.name.append(v)] for a collection attribute *)
Definition append (name : string) (v : Value) (e : Entity) : Entity :=
  mkEntity (class_of e) (scalars e)
           (<[name := collection name e ++ [v]]> (collections e)) (entries e).

(** [feed_data.entries = entry_list] *)
Definition set_entries (l : list Entity) (e : Entity) : Entity :=
  mkEntity (class_of e) (scalars e) (collections e) (Some l).

(** *** Field aggregator *)

(** Modelled from the spec: the descriptors of [libearth.feed] that tell a
    collection attribute from a scalar one are absent; section 3 of the
    specification names authors, contributors, categories and links as the
    ordered collections, every other attribute being a scalar. *)
Definition multiple (target_attribute : string) : bool :=
  bool_decide (target_attribute ∈ ["authors"; "contributors"; "categories"; "links"]).

(** Modelled from the spec: the field aggregator of section 4.2 (absent
    with [ParserBase]).  A scalar is overwritten, a collection is appended
    to, and [None] changes nothing. *)
Definition apply (entity : Entity) (target_attribute : string)
    (value : option Value) : Entity :=
  match value with
  | None => entity
  | Some v =>
      if multiple target_attribute
      then append target_attribute v entity
      else set_scalar target_attribute v entity
  end.

(** *** Path registry *)

Abbreviation Handler := (Element -> RSSSession -> Parsed Value).

(** One use of the [path] decorator: [path(local_name, namespace_set,
    attr_name)] over a handler; [attr_name] defaults to the local name. *)
Record Path : Type := mkPath {
  local_name : string;
  namespace_set : option (list string);
  target_attribute : string;
  handler : Handler
}.

(** A handler of the module returns a record of its own; the dispatch
    handles it as a value. *)
Definition as_value {A} (inj : A -> Value)
    (f : Element -> RSSSession -> Parsed A)
    (element : Element) (session : RSSSession) : Parsed Value :=
  '(v, session') ← f element session;
  Ok (option_map inj v, session').

(** Modelled from the spec: an element is unqualified when it has no
    namespace or is in the default namespace of its document. *)
Definition unqualified (child : Element) : bool :=
  match ns child with
  | None => true
  | Some uri => bool_decide (document_namespace child = Some uri)
  end.

(** Modelled from the spec: the matching rule of section 4.1.  The local
    names must be equal; a registration without a namespace set takes the
    unqualified children, one with a set takes the children whose
    namespace URI is a member of it. *)
Definition path_matches (p : Path) (child : Element) : bool :=
  String.eqb (local_name p) (tag child)
  && match namespace_set p with
     | None => unqualified child
     | Some uris =>
         match ns child with
         | Some uri => bool_decide (uri ∈ uris)
         | None => false
         end
     end.

(** The children a registration of [name] without namespace set takes. *)
Definition is_named (name : string) (child : Element) : bool :=
  String.eqb name (tag child) && unqualified child.

(** Modelled from the spec: the dispatch of one child, absent with
    [ParserBase]; by section 4.1 the registrations that match the child
    fire in registration order, each handler receives the session its
    predecessor returned, and its result goes through the field
    aggregator.  A handler that raises ends the dispatch (section 7). *)
Fixpoint fire (paths : list Path) (child : Element)
    (acc : Entity * RSSSession) : Result (Entity * RSSSession) :=
  match paths with
  | [] => Ok acc
  | p :: paths' =>
      if path_matches p child
      then
        '(value, session') ← handler p child (snd acc);
        fire paths' child (apply (fst acc) (target_attribute p) value, session')
      else fire paths' child acc
  end.

(** Modelled from the spec: the walk over the children of a node, absent
    with [ParserBase]; by section 4.1 the children are visited in document
    order, each with the entity and the session its predecessors left. *)
Fixpoint dispatch_children (paths : list Path) (nodes : list Element)
    (acc : Entity * RSSSession) : Result (Entity * RSSSession) :=
  match nodes with
  | [] => Ok acc
  | child :: rest =>
      acc' ← fire paths child acc;
      dispatch_children paths rest acc'
  end.

(** Modelled from the spec: [dispatch(container, node, session)] of
    section 4.1 (the [ParserBase] class is absent).  A node that is
    missing has no children to walk: reaching into [None] raises. *)
Definition dispatch (paths : list Path) (node : option Element)
    (entity : Entity) (session : RSSSession) : Result (Entity * RSSSession) :=
  match node with
  | None => Err AttributeError
  | Some n => dispatch_children paths (children n) (entity, session)
  end.

(** No registration that matches [child] writes the scalar [name]. *)
Definition leaves_alone (paths : list Path) (name : string) (child : Element)
  : Prop :=
  forall p, p ∈ paths -> path_matches p child = true ->
            multiple (target_attribute p) = true \/ target_attribute p <> name.

(** Modelled from the spec: a parser object of the absent class
    [ParserBase], as section 4.1 has it: the decorated function, which
    creates the entity, and the paths registered under it. *)
Record ParserBase : Type := mkParserBase {
  parser : option Element -> RSSSession -> Result (Entity * RSSSession);
  registered : list Path
}.

(** Modelled from the spec: the call of a parser object, absent with
    [ParserBase]; it creates the entity, dispatches the children of the
    element (section 4.1) and returns the entity, which is how
    [parse_rss2] uses the result. *)
Definition call (p : ParserBase) (element : option Element)
    (session : RSSSession) : Result Entity :=
  '(root, root_session) ← parser p element session;
  '(entity, _) ← dispatch (registered p) element root root_session;
  Ok entity.

(** The paths registered under [parse_channel], in the order in which the
    decorators run. *)
Definition channel_paths : list Path :=
  [ mkPath "pubDate" None "updated_at" (as_value VDatetime parse_datetime);
    mkPath "webMaster" None "contributors" (as_value VPerson parse_person);
    mkPath "managingEditor" None "contributors" (as_value VPerson parse_person);
    mkPath "category" None "categories" (as_value VCategory parse_category);
    mkPath "copyright" None "rights" (as_value VText parse_text);
    mkPath "title" None "title" (as_value VText parse_text);
    mkPath "description" None "subtitle" (as_value VText parse_subtitle);
    mkPath "link" (Some ATOM_XMLNS_SET) "links" (as_value VLink parse_atom_link);
    mkPath "link" None "links" (as_value VLink parse_link);
    mkPath "generator" None "generator" (as_value VGenerator parse_generator) ].

(** The paths registered under [parse_item]. *)
Definition item_paths (w : World) : list Path :=
  [ mkPath "pubDate" None "published_at" (as_value VDatetime parse_datetime);
    mkPath "author" None "authors" (as_value VPerson parse_person);
    mkPath "category" None "categories" (as_value VCategory parse_category);
    mkPath "title" None "title" (as_value VText parse_text);
    mkPath "link" None "links" (as_value VLink parse_link);
    mkPath "enclosure" None "links" (as_value VLink parse_enclosure);
    mkPath "source" None "source" (as_value VSource (parse_source w));
    mkPath "comments" None "links" (as_value VLink parse_comments);
    mkPath "encoded" (Some [CONTENT_XMLNS]) "content" (as_value VContent parse_content);
    mkPath "description" None "content" (as_value VContent parse_content);
    mkPath "guid" None "id" (as_value VString parse_guid) ].

(** [parse_channel]: [return Feed(), session] *)
Definition parse_channel : ParserBase :=
  mkParserBase (fun element session => Ok (new Feed, session)) channel_paths.

(** [parse_item]: [return Entry(), session] *)
Definition parse_item (w : World) : ParserBase :=
  mkParserBase (fun element session => Ok (new Entry, session)) (item_paths w).

(** *** Post-pass normaliser *)

Definition as_datetime (v : option Value) : option datetime :=
  match v with
  | Some (VDatetime d) => Some d
  | _ => None
  end.

(** Modelled from the spec: the per-item timestamp of section 4.8 (part of
    the absent [make_legal_as_atom]): the update time of the item, which
    the docstring of [parse_rss2] names, or else its publication time,
    the one this module maps from [pubDate]. *)
Definition entry_timestamp (e : Entity) : option datetime :=
  match as_datetime (scalar "updated_at" e) with
  | Some d => Some d
  | None => as_datetime (scalar "published_at" e)
  end.

Definition timestamps (feed_data : Entity) : list datetime :=
  omap entry_timestamp (default [] (entries feed_data)).

(** The latest of [d :: ds]. *)
Definition latest (d : datetime) (ds : list datetime) : datetime :=
  foldr Z.max d ds.

Definition is_self_link (url : string) (v : Value) : bool :=
  match v with
  | VLink l => bool_decide (link_relation l = Some "self" ∧ link_uri l = Some url)
  | _ => false
  end.

Definition self_link (url : string) : Value :=
  VLink (mkLink (Some url) (Some "self") None).

(** Modelled from the spec: first step of the absent
    [make_legal_as_atom]; a feed without identifier takes the origin URL
    as its identifier. *)
Definition ensure_id (url : string) (feed_data : Entity) : Entity :=
  match scalar "id" feed_data with
  | Some _ => feed_data
  | None => set_scalar "id" (VString url) feed_data
  end.

(** Modelled from the spec: second step of the absent
    [make_legal_as_atom]; a feed without a self link to the origin URL
    gets one. *)
Definition ensure_self_link (url : string) (feed_data : Entity) : Entity :=
  if existsb (is_self_link url) (collection "links" feed_data)
  then feed_data
  else append "links" (self_link url) feed_data.

(** Modelled from the spec: third step of the absent
    [make_legal_as_atom]; a feed without update time takes the latest
    timestamp of its items, or the reading of the clock when no item has
    one. *)
Definition ensure_updated_at (clock : datetime) (feed_data : Entity) : Entity :=
  match scalar "updated_at" feed_data with
  | Some _ => feed_data
  | None =>
      let t := match timestamps feed_data with
               | [] => clock
               | d :: ds => latest d ds
               end in
      set_scalar "updated_at" (VDatetime t) feed_data
  end.

(** Modelled from the spec: what the origin URL of the session
    contributes in the absent [make_legal_as_atom]; a session without
    origin URL gives nothing to derive an identifier or a self link
    from. *)
Definition ensure_origin (feed_data : Entity) (session : RSSSession) : Entity :=
  match feed_url session with
  | None => feed_data
  | Some url => ensure_self_link url (ensure_id url feed_data)
  end.

(** Modelled from the spec: [make_legal_as_atom] of [rss_base] is absent;
    this follows section 4.8 of the specification and the docstring of
    [parse_rss2] ("id and link[rel=self] fields would become the url of
    the feed", "updated field will be from the latest entry's updated
    time, or the time it's crawled instead"): the identifier, the self
    link, then the update time.  [clock] is the time of the call. *)
Definition make_legal_as_atom (clock : datetime) (feed_data : Entity)
    (session : RSSSession) : Entity :=
  ensure_updated_at clock (ensure_origin feed_data session).

(** *** Entry point *)

(** [channel.findall('item')] on what [root.find('channel')] returned. *)
Definition findall_in (name : string) (node : option Element)
  : Result (list Element) :=
  match node with
  | None => Err AttributeError
  | Some n => Ok (findall name n)
  end.

(** [parse_rss2(xml, feed_url=None, parse_entry=True)] *)
Definition parse_rss2 (w : World) (xml : string) (feed_url : option string)
    (parse_entry : bool) : Result (Entity * option CrawlerHint) :=
  root ← fromstring (normalize_xml_encoding xml);
  let channel := find "channel" root in
  let default_tzinfo := guess_default_tzinfo root feed_url in
  let session := mkRSSSession feed_url default_tzinfo in
  feed_data ← call parse_channel channel session;
  feed_data ←
    (if parse_entry
     then
       items ← findall_in "item" channel;
       entry_list ← mapM (fun item => call (parse_item w) (Some item) session) items;
       Ok (set_entries entry_list feed_data)
     else Ok feed_data);
  Ok (make_legal_as_atom (now w) feed_data session, None).

(** *** Notions used to state the properties *)

(** The session [parse_rss2] builds for a tree. *)
Definition session_of (root : Element) (feed_url : option string) : RSSSession :=
  mkRSSSession feed_url (guess_default_tzinfo root feed_url).

(** The feed data as [parse_rss2] hands it to [make_legal_as_atom], with
    the session: the body of [parse_rss2] up to that call. *)
Definition mapped_feed (w : World) (xml : string) (feed_url : option string)
    (parse_entry : bool) : Result (Entity * RSSSession) :=
  root ← fromstring (normalize_xml_encoding xml);
  let channel := find "channel" root in
  let session := session_of root feed_url in
  feed_data ← call parse_channel channel session;
  feed_data ←
    (if parse_entry
     then
       items ← findall_in "item" channel;
       entry_list ← mapM (fun item => call (parse_item w) (Some item) session) items;
       Ok (set_entries entry_list feed_data)
     else Ok feed_data);
  Ok (feed_data, session).

(** The failure, if any, that resolving a source element meets: of the
    fetch, of the format detection, or of the parser selected. *)
Definition source_failure (w : World) (element : Element) : option Error :=
  let url := get element "url" in
  match open_url w url with
  | Err e => Some e
  | Ok xml =>
      match get_format xml with
      | Err e => Some e
      | Ok engine =>
          match engine w xml url false with
          | Err e => Some e
          | Ok _ => None
          end
      end
  end.

(** What [parse_category], [parse_enclosure] and [parse_comments] build
    for an element, as values. *)
Definition category_of (element : Element) : Value :=
  VCategory (mkCategory (text element) (get element "domain")).

Definition enclosure_of (element : Element) : Value :=
  VLink (mkLink (get element "url") (Some "enclosure") (get element "type")).

Definition comments_of (element : Element) : Value :=
  VLink (mkLink (text element) (Some "discussion") None).

(** Two registrations that differ at most in their handlers, which agree
    on [child]. *)
Definition agree_on (child : Element) (p q : Path) : Prop :=
  local_name p = local_name q
  /\ namespace_set p = namespace_set q
  /\ target_attribute p = target_attribute q
  /\ forall session, handler p child session = handler q child session.

(** [x] is the publication time of an entry of [feed]: the time that the
    entry holds in [published_at], where [parse_item] puts what the
    [pubDate] of the item gave. *)
Definition dated (feed : Entity) (x : datetime) : Prop :=
  exists entry_list entry,
    entries feed = Some entry_list
    /\ entry ∈ entry_list
    /\ scalar "published_at" entry = Some (VDatetime x).

(** Two invocations resolve a source element alike: the fetch, the format
    detection and the parse of the fetched document end the same way. *)
Definition resolves_alike (w1 w2 : World) (element : Element) : Prop :=
  forall session,
    parse_source w1 element session = parse_source w2 element session.

(** Two invocations resolve alike every source element of the items of
    the document. *)
Definition sources_resolve_alike (w1 w2 : World) (xml : string) : Prop :=
  forall root channel item src,
    fromstring (normalize_xml_encoding xml) = Ok root ->
    find "channel" root = Some channel ->
    item ∈ findall "item" channel ->
    src ∈ children item ->
    is_named "source" src = true ->
    resolves_alike w1 w2 src.

End Rss2.

(** ** Sample collaborators and documents

    A concrete instance of the collaborators, small enough to evaluate:
    texts are kept as they are, the date parser knows two dates, the tree
    parser knows the sample documents below. *)

Definition sample_types : Types :=
  {| tzinfo := unit; Text := string; Person := string; Content := string;
     Source := string; CrawlerHint := unit |}.

Definition sample_session : @RSSSession sample_types :=
  @mkRSSSession sample_types None tt.

Definition leaf (name : string) (t : option string) : Element :=
  mkElement None name t ∅ [].

Definition node (name : string) (kids : list Element) : Element :=
  mkElement None name None ∅ kids.

Definition text_of {A} (f : string -> option A) (element : Element)
    (session : @RSSSession sample_types)
  : Result (option A * @RSSSession sample_types) :=
  Ok (text element ≫= f, session).

Definition sample_date (s : string) : option datetime :=
  if String.eqb s "Thu, 01 Jan 1970 00:01:00 GMT" then Some 60
  else if String.eqb s "Thu, 01 Jan 1970 00:02:00 GMT" then Some 120
  else None.

Definition sample_scheme (t : option string) : Result string :=
  match t with
  | None => Ok ""
  | Some s =>
      if String.prefix "http://[" s then Err ValueError
      else if String.prefix "http://" s then Ok "http"
      else if String.prefix "https://" s then Ok "https"
      else Ok ""
  end.

Definition title_first : Element := leaf "title" (Some "first").
Definition title_second : Element := leaf "title" (Some "second").
Definition link_home : Element := leaf "link" (Some "http://example.com/").

Definition channel_two_titles : Element :=
  node "channel" [title_first; link_home; title_second].

Definition source_origin : Element :=
  mkElement None "source" (Some "origin")
            {[ "url" := "http://example.org/feed.xml" ]} [].

Definition item_quoted : Element :=
  node "item" [leaf "title" (Some "quoted"); source_origin].

Definition sample_url : string := "http://example.com/rss.xml".

Definition doc_minimal : Element :=
  node "rss" [node "channel" []].

Definition doc_dated_item : Element :=
  node "rss" [node "channel"
    [leaf "title" (Some "news");
     node "item" [leaf "pubDate" (Some "Thu, 01 Jan 1970 00:01:00 GMT")];
     node "item" [leaf "pubDate" (Some "Thu, 01 Jan 1970 00:02:00 GMT")]]].

Definition doc_two_titles : Element := node "rss" [channel_two_titles].

Definition doc_with_source : Element :=
  node "rss" [node "channel" [item_quoted]].

Definition xml_minimal : string := "<rss><channel/></rss>".

Definition xml_two_titles : string :=
  "<rss><channel><title>first</title><link>http://example.com/</link>"
  +:+ "<title>second</title></channel></rss>".

Definition xml_dated_items : string :=
  "<rss><channel><title>news</title>"
  +:+ "<item><pubDate>Thu, 01 Jan 1970 00:01:00 GMT</pubDate></item>"
  +:+ "<item><pubDate>Thu, 01 Jan 1970 00:02:00 GMT</pubDate></item>"
  +:+ "</channel></rss>".

Definition xml_with_source : string :=
  "<rss><channel><item><title>quoted</title>"
  +:+ "<source url='http://example.org/feed.xml'>origin</source>"
  +:+ "</item></channel></rss>".

Definition sample_fromstring (xml : string) : Result Element :=
  if String.eqb xml xml_minimal then Ok doc_minimal
  else if String.eqb xml xml_two_titles then Ok doc_two_titles
  else if String.eqb xml xml_dated_items then Ok doc_dated_item
  else if String.eqb xml xml_with_source then Ok doc_with_source
  else Err MalformedDocument.

(** The format detector knows one document, and parses it to its URL. *)
Definition sample_get_format (xml : string)
  : Result (@ParseEngine sample_types) :=
  if String.eqb xml "<feed/>"
  then Ok (fun _ _ url _ => Ok (default "" url, None))
  else Err UnknownFormat.

Definition sample_collaborators : @Collaborators sample_types :=
  @Build_Collaborators sample_types
    (text_of sample_date) (text_of Some) (text_of Some) (text_of Some)
    (text_of (fun s => Some (mkLink (Some s) (Some "alternate") None)))
    (text_of Some) (fun _ _ => tt) (fun _ => None)
    ["http://www.w3.org/2005/Atom"]
    "http://purl.org/rss/1.0/modules/content/"
    sample_fromstring (fun xml => xml) sample_scheme sample_get_format.

Definition guid_element (t : string) (attrs : gmap string string) : Element :=
  mkElement None "guid" (Some t) attrs [].

(** The element with one more attribute. *)
Definition with_attribute (key value : string) (e : Element) : Element :=
  mkElement (ns e) (tag e) (text e) (<[key := value]> (attrib e)) (children e).

(** A world whose network is down. *)
Definition offline (clock : datetime) : World :=
  mkWorld clock (fun _ => Err FetchError).

(** A world in which every fetch delivers the document the detector
    knows. *)
Definition online (clock : datetime) : World :=
  mkWorld clock (fun _ => Ok "<feed/>").

Definition sample_parse_rss2 :=
  @parse_rss2 sample_types sample_collaborators.

(** [k'] accepts, with [suffix] appended, whatever [k] accepts. *)
Definition leads (k k' : Matcher) (suffix : string) : Prop :=
  forall s, k s = true -> k' (s +:+ suffix) = true.

(** Collaborators whose tree parser delivers [root] for every document,
    the others being those of the samples. *)
Definition tree_collaborators (root : Element) : @Collaborators sample_types :=
  @Build_Collaborators sample_types
    (text_of sample_date) (text_of Some) (text_of Some) (text_of Some)
    (text_of (fun s => Some (mkLink (Some s) (Some "alternate") None)))
    (text_of Some) (fun _ _ => tt) (fun _ => None)
    ["http://www.w3.org/2005/Atom"]
    "http://purl.org/rss/1.0/modules/content/"
    (fun _ => Ok root) (fun xml => xml) sample_scheme sample_get_format.

Definition uuid_sample : string := "123e4567-e89b-12d3-a456-426614174000".

Definition category_tech : Element :=
  mkElement None "category" (Some "tech")
            {[ "domain" := "http://example.com/categories" ]} [].

Definition category_news : Element := leaf "category" (Some "news").

Definition enclosure_audio : Element :=
  mkElement None "enclosure" None
            (<[ "type" := "audio/mpeg" ]> {[ "url" := "http://example.com/a.mp3" ]})
            [].

Definition comments_thread : Element :=
  leaf "comments" (Some "http://example.com/a#comments").

Definition item_episode : Element :=
  node "item" [leaf "title" (Some "episode"); category_news;
               enclosure_audio; comments_thread].

Definition item_broken : Element := node "item" [leaf "guid" None].

Definition channel_podcast : Element :=
  node "channel" [category_tech; leaf "title" (Some "podcast"); category_news;
                  item_episode; item_broken].

Definition doc_podcast : Element := node "rss" [channel_podcast].

(** [r] consumes exactly [n] characters: [r k] accepts a string when the
    string is a piece of [n] characters that [r] accepts on its own,
    followed by a rest that [k] accepts. *)
Definition splits (r : Matcher -> Matcher) (n : nat) : Prop :=
  forall k s,
    r k s = true <->
    exists u rest, s = u +:+ rest /\ String.length u = n
                   /\ r re_end u = true /\ k rest = true.

(** The strings [GUID_PATTERN] is written for: a UUID in textual form,
    after an optional opening brace, before an optional closing brace and
    an optional final newline. *)
Definition guid_shape (s : string) : Prop :=
  exists o u c n,
    s = o +:+ u +:+ c +:+ n
    /\ (o = "" \/ o = "{")
    /\ uuid_text u = true
    /\ (c = "" \/ c = "}")
    /\ (n = "" \/ n = newline).

(** [urlparse] as Python 2 has it, the one the module imports first: on
    [None], the text of an element without text, it raises
    [AttributeError] ([None] has no [find]); on a text it is
    [sample_scheme]. *)
Definition python2_scheme (t : option string) : Result string :=
  match t with
  | None => Err AttributeError
  | Some s => sample_scheme (Some s)
  end.

(** The sample collaborators with the [urlparse] of Python 2. *)
Definition python2_collaborators : @Collaborators sample_types :=
  @Build_Collaborators sample_types
    (text_of sample_date) (text_of Some) (text_of Some) (text_of Some)
    (text_of (fun s => Some (mkLink (Some s) (Some "alternate") None)))
    (text_of Some) (fun _ _ => tt) (fun _ => None)
    ["http://www.w3.org/2005/Atom"]
    "http://purl.org/rss/1.0/modules/content/"
    sample_fromstring (fun xml => xml) python2_scheme sample_get_format.

(** [<generator/>] *)
Definition generator_empty : Element := leaf "generator" None.

(** A format detector whose parser stamps what it returns with the time
    of the call, as [parse_rss2] does with a feed that has no date. *)
Definition clocked_get_format (xml : string)
  : Result (@ParseEngine sample_types) :=
  if String.eqb xml "<feed/>"
  then Ok (fun w _ _ _ =>
             Ok (if now w =? 1 then "parsed at 1" else "parsed later", None))
  else Err UnknownFormat.

(** The sample collaborators with that detector. *)
Definition clocked_collaborators : @Collaborators sample_types :=
  @Build_Collaborators sample_types
    (text_of sample_date) (text_of Some) (text_of Some) (text_of Some)
    (text_of (fun s => Some (mkLink (Some s) (Some "alternate") None)))
    (text_of Some) (fun _ _ => tt) (fun _ => None)
    ["http://www.w3.org/2005/Atom"]
    "http://purl.org/rss/1.0/modules/content/"
    sample_fromstring (fun xml => xml) sample_scheme clocked_get_format.

(** The source of the only entry of a feed. *)
Definition only_source (feed : @Entity sample_types) : option (@Value sample_types) :=
  match entries feed with
  | Some [entry] => scalar "source" entry
  | _ => None
  end.

(** * Properties *)

(** ** The pattern *)

Lemma append_String c s x : String c s +:+ x = String c (s +:+ x).
Proof. reflexivity. Qed.

Lemma append_nil_l x : "" +:+ x = x.
Proof. reflexivity. Qed.

Lemma append_nil_r s : s +:+ "" = s.
Proof.
  induction s as [|c s IH]; [done|]. by rewrite append_String, IH.
Qed.

Lemma substring_all s : String.substring 0 (String.length s) s = s.
Proof. induction s as [|c s IH]; simpl; [done|]. by rewrite IH. Qed.

Lemma re_class_leads p k k' x :
  leads k k' x -> leads (re_class p k) (re_class p k') x.
Proof.
  intros H [|c s]; [discriminate|]. rewrite append_String. simpl.
  intros [Hp Hk]%andb_true_iff. rewrite Hp. simpl. by apply H.
Qed.

Lemma re_char_leads c k k' x :
  leads k k' x -> leads (re_char c k) (re_char c k') x.
Proof.
  intros H. unfold re_char.
  destruct c as [|a [|b c]]; [intros s; discriminate| |intros s; discriminate].
  by apply re_class_leads.
Qed.

Lemma hex_run_leads n k k' x :
  leads k k' x -> leads (hex_run n k) (hex_run n k') x.
Proof.
  intros H. unfold hex_run. induction n as [|n IH]; simpl; [done|].
  by apply re_class_leads.
Qed.

Lemma uuid_groups_leads k k' x :
  leads k k' x -> leads (uuid_groups k) (uuid_groups k') x.
Proof.
  intros H. unfold uuid_groups.
  repeat (first [apply hex_run_leads | apply re_char_leads]). exact H.
Qed.

Lemma re_end_leads k x : k x = true -> leads re_end k x.
Proof.
  intros Hk s Hs. unfold re_end in Hs.
  apply String.eqb_eq in Hs. by subst s.
Qed.

(** A UUID in textual form is matched with and without braces. *)
Lemma GUID_PATTERN_accepts u :
  uuid_text u = true ->
  GUID_PATTERN_match u = true /\ GUID_PATTERN_match ("{" +:+ u +:+ "}") = true.
Proof.
  intros Hu. split.
  - unfold GUID_PATTERN_match, re_opt.
    apply orb_true_iff. right.
    rewrite <- (append_nil_r u).
    revert Hu. apply uuid_groups_leads, re_end_leads. reflexivity.
  - rewrite append_String, append_nil_l.
    unfold GUID_PATTERN_match, re_opt. simpl.
    apply orb_true_iff. left.
    revert Hu. apply uuid_groups_leads, re_end_leads. reflexivity.
Qed.

Lemma uuid_text_first_hex u :
  uuid_text u = true -> exists c u', u = String c u' /\ hexdigit c = true.
Proof.
  destruct u as [|c u']; [discriminate|].
  unfold uuid_text, uuid_groups, hex_run. simpl.
  intros [Hc _]%andb_true_iff. eauto.
Qed.

Lemma uuid_text_not_http u :
  uuid_text u = true -> String.prefix "http://" u = false.
Proof.
  intros (c & u' & -> & Hc)%uuid_text_first_hex. cbn [String.prefix].
  destruct (ascii_dec "h" c) as [<-|Hne]; [discriminate Hc|done].
Qed.

Lemma canonical_urn_of_uuid u :
  uuid_text u = true -> canonical_urn ("urn:uuid:" +:+ u) = true.
Proof.
  intros Hu. unfold canonical_urn.
  rewrite !append_String, append_nil_l. simpl.
  rewrite Nat.sub_0_r, substring_all.
  destruct u; [discriminate Hu|]. exact Hu.
Qed.

(** ** Fallible results *)

Lemma bind_Ok {A B} (a : A) (f : A -> Result B) : (Ok a ≫= f) = f a.
Proof. reflexivity. Qed.

Lemma bind_Err {A B} (e : Error) (f : A -> Result B) : (Err e ≫= f) = Err e.
Proof. reflexivity. Qed.

Lemma bind_Ok_inv {A B} (m : Result A) (f : A -> Result B) (b : B) :
  m ≫= f = Ok b -> exists a, m = Ok a /\ f a = Ok b.
Proof. destruct m as [a|e]; [eauto|discriminate]. Qed.

Lemma bind_is_Err {A B} (m : Result A) (f : A -> Result B) :
  is_Err m -> is_Err (m ≫= f).
Proof. intros [e ->]. by exists e. Qed.

Lemma is_Ok_or_Err {A} (r : Result A) : is_Ok r \/ is_Err r.
Proof. destruct r as [a|e]; [left|right]; eexists; reflexivity. Qed.

Lemma is_Err_not_Ok {A} (r : Result A) (a : A) : is_Err r -> r <> Ok a.
Proof. intros [e ->]. discriminate. Qed.

Lemma mapM_is_Err {A B} (f : A -> Result B) (l : list A) (x : A) :
  x ∈ l -> is_Err (f x) -> is_Err (mapM f l).
Proof.
  intros Hx Hf. induction l as [|y l IH]; [by apply elem_of_nil in Hx|].
  apply elem_of_cons in Hx as [<-|Hx]; cbn [mapM].
  - by apply bind_is_Err.
  - destruct (f y) as [b|e]; [|by exists e].
    rewrite bind_Ok. destruct (IH Hx) as [e ->]. by exists e.
Qed.

Lemma mapM_ext {A B} (f g : A -> Result B) (l : list A) :
  (forall x, f x = g x) -> mapM f l = mapM g l.
Proof.
  intros Hfg. induction l as [|y l IH]; [done|].
  cbn [mapM]. by rewrite Hfg, IH.
Qed.

Lemma mapM_ext_in {A B} (f g : A -> Result B) (l : list A) :
  (forall x, x ∈ l -> f x = g x) -> mapM f l = mapM g l.
Proof.
  intros Hfg. induction l as [|x l IH]; [done|].
  cbn [mapM]. rewrite (Hfg x) by apply list_elem_of_here.
  rewrite IH; [done|]. intros y Hy. apply Hfg. by apply list_elem_of_further.
Qed.

Lemma mapM_elem_of {A B} (f : A -> Result B) (l : list A) (l' : list B) (y : B) :
  mapM f l = Ok l' -> y ∈ l' -> exists x, x ∈ l /\ f x = Ok y.
Proof.
  revert l'. induction l as [|x l IH]; intros l'; cbn [mapM].
  - intros [= <-] Hy. by apply elem_of_nil in Hy.
  - intros (z & Hz & H)%bind_Ok_inv.
    apply bind_Ok_inv in H as (zs & Hzs & [= <-]).
    intros [->|Hy]%elem_of_cons.
    + exists x. split; [apply list_elem_of_here|done].
    + destruct (IH zs Hzs Hy) as (x' & Hx' & Hfx').
      exists x'. split; [by apply list_elem_of_further|done].
Qed.

(** ** The handlers *)

Section HandlerProperties.

Context {T : Types} {C : Collaborators}.

(** C1 (amended): the guid handler is an ordered decision list.  A text
    that starts with [http://], unless the [isPermalink] attribute is
    ["False"], is the identifier as it stands; otherwise a text that
    [GUID_PATTERN] matches yields [urn:uuid:] followed by the text as it
    stands; otherwise the handler returns [None].  For a UUID in plain
    textual form (no braces) the result is the canonical URN. *)
Theorem parse_guid_decision_list
    (element : Element) (session : RSSSession) (t : string) :
  text element = Some t ->
  let flag := get element "isPermalink" in
  (String.prefix "http://" t = true -> flag <> Some "False" ->
   parse_guid element session = Ok (Some t, session))
  /\ (String.prefix "http://" t = false \/ flag = Some "False" ->
      GUID_PATTERN_match t = true ->
      parse_guid element session = Ok (Some ("urn:uuid:" +:+ t), session))
  /\ (String.prefix "http://" t = false \/ flag = Some "False" ->
      GUID_PATTERN_match t = false ->
      parse_guid element session = Ok (None, session))
  /\ (uuid_text t = true ->
      parse_guid element session = Ok (Some ("urn:uuid:" +:+ t), session)
      /\ canonical_urn ("urn:uuid:" +:+ t) = true).
Proof.
  intros Ht flag.
  assert (Hbc : String.prefix "http://" t = false \/ flag = Some "False" ->
                String.prefix "http://" t
                && negb (bool_decide (flag = Some "False")) = false).
  { intros [-> | Hf]; [done|].
    rewrite (bool_decide_eq_true_2 _ Hf). apply andb_false_r. }
  repeat split.
  - intros Hp Hf. unfold parse_guid. rewrite Ht, Hp.
    fold flag. by rewrite (bool_decide_eq_false_2 _ Hf).
  - intros Hno Hm. unfold parse_guid. rewrite Ht.
    fold flag. by rewrite (Hbc Hno), Hm.
  - intros Hno Hm. unfold parse_guid. rewrite Ht.
    fold flag. by rewrite (Hbc Hno), Hm.
  - unfold parse_guid. rewrite Ht, (uuid_text_not_http _ H).
    by rewrite (proj1 (GUID_PATTERN_accepts _ H)).
  - by apply canonical_urn_of_uuid.
Qed.

(** C2: an enclosure element yields a link whose relation is "enclosure",
    whatever attributes the element carries, with the [url] attribute as
    its uri and the [type] attribute as its mimetype; a comments element
    yields a link whose relation is "discussion" and whose uri is the text
    of the element. *)
Theorem enclosure_and_comments_relation
    (element : Element) (session : RSSSession) :
  (exists l, parse_enclosure element session = Ok (Some l, session)
             /\ link_relation l = Some "enclosure"
             /\ link_uri l = get element "url"
             /\ link_mimetype l = get element "type")
  /\ (forall key value, exists l,
        parse_enclosure (with_attribute key value element) session
        = Ok (Some l, session)
        /\ link_relation l = Some "enclosure")
  /\ (exists l, parse_comments element session = Ok (Some l, session)
                /\ link_relation l = Some "discussion"
                /\ link_uri l = text element)
  /\ (forall key value, exists l,
        parse_comments (with_attribute key value element) session
        = Ok (Some l, session)
        /\ link_relation l = Some "discussion").
Proof.
  unfold parse_enclosure, parse_comments.
  repeat split; intros; eexists; repeat split.
Qed.

(** C9: on a guid element without text the handler raises, where
    [startswith] is called on [None]; on a guid element with text it
    always returns, with the session it was given. *)
Theorem parse_guid_needs_text (element : Element) (session : RSSSession) :
  match text element with
  | None => parse_guid element session = Err AttributeError
  | Some _ => exists v, parse_guid element session = Ok (v, session)
  end.
Proof.
  unfold parse_guid. destruct (text element) as [t|]; [|done].
  repeat case_match; eauto.
Qed.

(** C6 (amended): the generator handler catches [ValueError] and nothing
    else.  When the scheme of the text is http or https it returns a
    [Generator] with the text as its uri; with any other scheme, and when
    [urlparse] raised [ValueError], it returns a [Generator] with the text
    as its value; an exception of another class is raised to the caller.
    So the handler fails exactly when [urlparse] raises something that is
    not a [ValueError], and then with that exception. *)
Theorem parse_generator_catches_ValueError
    (element : Element) (session : RSSSession) :
  (forall scheme, urlparse_scheme (text element) = Ok scheme ->
      scheme = "http" \/ scheme = "https" ->
      parse_generator element session
      = Ok (Some (mkGenerator (text element) None), session))
  /\ (forall scheme, urlparse_scheme (text element) = Ok scheme ->
      scheme <> "http" -> scheme <> "https" ->
      parse_generator element session
      = Ok (Some (mkGenerator None (text element)), session))
  /\ (urlparse_scheme (text element) = Err ValueError ->
      parse_generator element session
      = Ok (Some (mkGenerator None (text element)), session))
  /\ (forall e, urlparse_scheme (text element) = Err e -> e <> ValueError ->
      parse_generator element session = Err e)
  /\ (is_Err (parse_generator element session)
      <-> exists e, urlparse_scheme (text element) = Err e /\ e <> ValueError).
Proof.
  unfold parse_generator.
  destruct (urlparse_scheme (text element)) as [scheme|e] eqn:Hs.
  - assert (Hin : scheme ∈ ["http"; "https"] <-> scheme = "http" \/ scheme = "https").
    { rewrite !elem_of_cons, elem_of_nil. tauto. }
    split; [|split; [|split; [|split; [|split]]]].
    + intros ? [= <-] Hsch. apply Hin in Hsch.
      by rewrite (bool_decide_eq_true_2 _ Hsch).
    + intros ? [= <-] H1 H2.
      rewrite bool_decide_eq_false_2; [done|]. rewrite Hin. tauto.
    + discriminate.
    + discriminate.
    + case_bool_decide; intros [? [=]].
    + intros (? & [=] & _).
  - split; [discriminate|]. split; [discriminate|].
    split; [by intros [= ->]|]. split.
    + intros ? [= <-] Hne. by destruct e.
    + destruct e;
        (split;
         [ first [ by intros [? [=]]
                 | intros _; eexists; split; [reflexivity|discriminate] ]
         | first [ intros (? & [= <-] & Hne); by destruct Hne
                 | intros _; by eexists ] ]).
Qed.

End HandlerProperties.

(** ** The field aggregator and the dispatch *)

Section DispatchProperties.

Context {T : Types} {C : Collaborators}.

Implicit Types (e entity : Entity) (s session : RSSSession).
Implicit Types (paths : list Path) (nodes : list Element).

Lemma entries_apply e target v : entries (apply e target v) = entries e.
Proof. unfold apply. destruct v; [|done]. by destruct (multiple target). Qed.

Lemma scalar_apply_eq e target v :
  multiple target = false -> scalar target (apply e target (Some v)) = Some v.
Proof.
  intros Hm. unfold apply. rewrite Hm.
  unfold scalar, set_scalar. cbn. apply lookup_insert_eq.
Qed.

Lemma scalar_apply_ne e target v name :
  multiple target = true \/ target <> name ->
  scalar name (apply e target v) = scalar name e.
Proof.
  intros Hne. unfold apply. destruct v as [v|]; [|done].
  destruct (multiple target) eqn:Hm; [done|].
  destruct Hne as [|Hne]; [done|].
  unfold scalar, set_scalar. cbn. by apply lookup_insert_ne.
Qed.

Lemma collections_apply_scalar e target v :
  multiple target = false -> collections (apply e target v) = collections e.
Proof. intros Hm. unfold apply. destruct v; [|done]. by rewrite Hm. Qed.

Lemma leaves_alone_cons p paths name child :
  leaves_alone (p :: paths) name child -> leaves_alone paths name child.
Proof. intros H q Hq. apply H. by apply list_elem_of_further. Qed.

Lemma fire_entries paths child e s e' s' :
  fire paths child (e, s) = Ok (e', s') -> entries e' = entries e.
Proof.
  revert e s. induction paths as [|p paths IH]; intros e s; cbn [fire].
  - by intros [= <- <-].
  - destruct (path_matches p child); [|apply IH].
    intros ([value s1] & _ & H)%bind_Ok_inv.
    apply IH in H. by rewrite entries_apply in H.
Qed.

Lemma dispatch_children_entries paths nodes e s e' s' :
  dispatch_children paths nodes (e, s) = Ok (e', s') -> entries e' = entries e.
Proof.
  revert e s. induction nodes as [|c nodes IH]; intros e s; cbn [dispatch_children].
  - by intros [= <- <-].
  - intros ([e1 s1] & H1 & H2)%bind_Ok_inv.
    apply fire_entries in H1. apply IH in H2. congruence.
Qed.

Lemma fire_leaves_alone paths name child e s e' s' :
  leaves_alone paths name child ->
  fire paths child (e, s) = Ok (e', s') -> scalar name e' = scalar name e.
Proof.
  revert e s. induction paths as [|p paths IH]; intros e s Hl; cbn [fire].
  - by intros [= <- <-].
  - pose proof (leaves_alone_cons _ _ _ _ Hl) as Hl'.
    destruct (path_matches p child) eqn:Hm; [|by apply IH].
    intros ([value s1] & _ & H)%bind_Ok_inv.
    apply IH in H; [|done]. rewrite H. apply scalar_apply_ne.
    apply Hl; [apply list_elem_of_here|done].
Qed.

Lemma dispatch_children_leaves_alone paths name nodes e s e' s' :
  Forall (leaves_alone paths name) nodes ->
  dispatch_children paths nodes (e, s) = Ok (e', s') ->
  scalar name e' = scalar name e.
Proof.
  revert e s.
  induction nodes as [|c nodes IH]; intros e s Hall; cbn [dispatch_children].
  - by intros [= <- <-].
  - apply Forall_cons in Hall as [Hc Hall].
    intros ([e1 s1] & H1 & H2)%bind_Ok_inv.
    apply (fire_leaves_alone _ name) in H1; [|done].
    apply IH in H2; [|done]. congruence.
Qed.

Lemma dispatch_children_app paths nodes1 nodes2 acc :
  dispatch_children paths (nodes1 ++ nodes2) acc
  = dispatch_children paths nodes1 acc ≫= dispatch_children paths nodes2.
Proof.
  revert acc. induction nodes1 as [|c nodes1 IH]; intros acc; [done|].
  cbn [dispatch_children app].
  destruct (fire paths c acc) as [acc'|err]; [|done].
  rewrite !bind_Ok. apply IH.
Qed.

(** A dispatch fails only where a handler fails. *)
Lemma fire_total paths child acc :
  (forall p s, p ∈ paths -> is_Ok (handler p child s)) ->
  is_Ok (fire paths child acc).
Proof.
  revert acc. induction paths as [|p paths IH]; intros acc Hok; cbn [fire].
  - by exists acc.
  - assert (Hrest : forall q s, q ∈ paths -> is_Ok (handler q child s)).
    { intros q s Hq. apply Hok. by apply list_elem_of_further. }
    destruct (path_matches p child); [|by apply IH].
    destruct (Hok p (snd acc) (list_elem_of_here _ _)) as [[value s1] ->].
    rewrite bind_Ok. by apply IH.
Qed.

Lemma dispatch_children_total paths nodes acc :
  (forall child p s, child ∈ nodes -> p ∈ paths -> is_Ok (handler p child s)) ->
  is_Ok (dispatch_children paths nodes acc).
Proof.
  revert acc.
  induction nodes as [|c nodes IH]; intros acc Hok; cbn [dispatch_children].
  - by exists acc.
  - destruct (fire_total paths c acc) as [acc' ->].
    { intros p s Hp. apply Hok; [apply list_elem_of_here|done]. }
    rewrite bind_Ok. apply IH.
    intros child p s Hc Hp. apply Hok; [by apply list_elem_of_further|done].
Qed.

(** A child whose dispatch always fails makes the whole walk fail. *)
Lemma dispatch_children_is_Err paths nodes child acc :
  child ∈ nodes ->
  (forall acc', is_Err (fire paths child acc')) ->
  is_Err (dispatch_children paths nodes acc).
Proof.
  revert acc. induction nodes as [|c nodes IH]; intros acc Hin Hfail.
  - by apply elem_of_nil in Hin.
  - cbn [dispatch_children].
    apply elem_of_cons in Hin as [<-|Hin].
    + by apply bind_is_Err.
    + destruct (fire paths c acc) as [acc'|err]; [|by exists err].
      rewrite bind_Ok. by apply IH.
Qed.

(** *** The registered paths *)

Lemma has_tag_inv name child :
  has_tag name child = true -> ns child = None /\ tag child = name.
Proof.
  unfold has_tag. destruct (ns child); [discriminate|].
  intros H%String.eqb_eq. done.
Qed.

Lemma has_tag_is_named name child :
  has_tag name child = true -> is_named name child = true.
Proof.
  intros [Hns Htag]%has_tag_inv. unfold is_named, unqualified.
  rewrite Hns, Htag, String.eqb_refl. reflexivity.
Qed.

Lemma is_named_tag name child : is_named name child = true -> tag child = name.
Proof.
  unfold is_named. intros [Hn _]%andb_true_iff.
  by apply String.eqb_eq in Hn.
Qed.

Lemma path_matches_plain name target h child :
  path_matches (mkPath name None target h) child = is_named name child.
Proof. reflexivity. Qed.

Lemma path_matches_other name name' uris target h child :
  tag child = name -> name' <> name ->
  path_matches (mkPath name' uris target h) child = false.
Proof.
  intros Htag Hne. unfold path_matches. cbn [local_name]. rewrite Htag.
  by rewrite (proj2 (String.eqb_neq name' name) Hne).
Qed.

Lemma fire_item_source w child e s :
  is_named "source" child = true ->
  fire (item_paths w) child (e, s)
  = '(v, s') ← parse_source w child s;
    Ok (apply e "source" (option_map VSource v), s').
Proof.
  intros Ht. pose proof (is_named_tag _ _ Ht) as Htag.
  unfold item_paths. cbn [fire].
  rewrite (path_matches_plain "source"), Ht.
  rewrite !(path_matches_other _ _ _ _ _ _ Htag) by discriminate.
  cbn [handler target_attribute fst snd]. unfold as_value.
  destruct (parse_source w child s) as [[v s']|err]; reflexivity.
Qed.

(** Nothing is registered under [parse_channel] for an item. *)
Lemma fire_channel_item child acc :
  tag child = "item" -> fire channel_paths child acc = Ok acc.
Proof.
  intros Htag. unfold channel_paths. cbn [fire].
  by rewrite !(path_matches_other _ _ _ _ _ _ Htag) by discriminate.
Qed.

Ltac each_path Hp :=
  rewrite !elem_of_cons, elem_of_nil in Hp;
  repeat (destruct Hp as [->|Hp]); [..|destruct Hp].

Ltac fire_the_path Ht :=
  cbn [local_name] in Ht;
  pose proof (is_named_tag _ _ Ht) as Htag;
  cbn [fire];
  match type of Ht with
  | is_named ?name _ = true => rewrite (path_matches_plain name), Ht
  end;
  rewrite !(path_matches_other _ _ _ _ _ _ Htag) by discriminate;
  cbn [handler target_attribute fst snd];
  match goal with
  | |- context [as_value ?inj ?f ?c ?s] =>
      destruct (as_value inj f c s) as [[? ?]|?]
  end;
  reflexivity.

(** A child named as a registration of a scalar without namespace set is
    dispatched to that registration alone. *)
Lemma fire_channel_scalar p child e s :
  p ∈ channel_paths ->
  namespace_set p = None ->
  multiple (target_attribute p) = false ->
  is_named (local_name p) child = true ->
  fire channel_paths child (e, s)
  = '(v, s') ← handler p child s; Ok (apply e (target_attribute p) v, s').
Proof.
  intros Hp Hns Hm Ht. unfold channel_paths in *. each_path Hp;
    first [ discriminate Hns | discriminate Hm | fire_the_path Ht ].
Qed.

Lemma fire_item_scalar w p child e s :
  p ∈ item_paths w ->
  namespace_set p = None ->
  multiple (target_attribute p) = false ->
  is_named (local_name p) child = true ->
  fire (item_paths w) child (e, s)
  = '(v, s') ← handler p child s; Ok (apply e (target_attribute p) v, s').
Proof.
  intros Hp Hns Hm Ht. unfold item_paths in *. each_path Hp;
    first [ discriminate Hns | discriminate Hm | fire_the_path Ht ].
Qed.

Lemma leaves_alone_channel_title child :
  is_named "title" child = false -> leaves_alone channel_paths "title" child.
Proof.
  intros Ht p Hp Hm. unfold channel_paths in Hp. each_path Hp;
    cbn [target_attribute];
    first [ left; reflexivity
          | right; discriminate
          | rewrite path_matches_plain in Hm; congruence ].
Qed.

Lemma leaves_alone_item_title w child :
  is_named "title" child = false -> leaves_alone (item_paths w) "title" child.
Proof.
  intros Ht p Hp Hm. unfold item_paths in Hp. each_path Hp;
    cbn [target_attribute];
    first [ left; reflexivity
          | right; discriminate
          | rewrite path_matches_plain in Hm; congruence ].
Qed.

(** No element of a channel is mapped to the identifier of the feed. *)
Lemma leaves_alone_channel_id child : leaves_alone channel_paths "id" child.
Proof.
  intros p Hp Hm. unfold channel_paths in Hp. each_path Hp;
    cbn [target_attribute];
    first [ left; reflexivity | right; discriminate ].
Qed.

(** No element of an item is mapped to the update time of the entry. *)
Lemma leaves_alone_item_updated_at w child :
  leaves_alone (item_paths w) "updated_at" child.
Proof.
  intros p Hp Hm. unfold item_paths in Hp. each_path Hp;
    cbn [target_attribute];
    first [ left; reflexivity | right; discriminate ].
Qed.

(** The last write of a scalar stands when the children after it leave
    the scalar alone. *)
Lemma last_write_wins paths (acc : Entity * RSSSession) pre c post
    e1 s1 s2 name val :
  multiple name = false ->
  dispatch_children paths pre acc = Ok (e1, s1) ->
  fire paths c (e1, s1) = Ok (apply e1 name (Some val), s2) ->
  Forall (leaves_alone paths name) post ->
  forall e3 s3,
    dispatch_children paths (pre ++ c :: post) acc = Ok (e3, s3) ->
    scalar name e3 = Some val.
Proof.
  intros Hm Hpre Hc Hpost e3 s3.
  rewrite dispatch_children_app, Hpre, bind_Ok.
  cbn [dispatch_children]. rewrite Hc, bind_Ok.
  intros H. apply (dispatch_children_leaves_alone _ name) in H; [|done].
  rewrite H. by apply scalar_apply_eq.
Qed.

End DispatchProperties.

(** ** Parsing a channel and its items *)

Section ParseProperties.

Context {T : Types} {C : Collaborators}.

Implicit Types (w : World) (session : RSSSession) (node channel : Element).

(** C4: when a channel or an item has several children that are mapped to
    the same scalar field (two title elements, say), the children are
    dispatched in document order and the field of the entity holds the
    value extracted from the last of them; the repetition raises nothing:
    the call fails only where a handler fails. *)
Theorem repeated_scalar_last_wins
    w (P : ParserBase) node session root pre c post e1 s1 (p : Path) val s2 :
  P = parse_channel \/ P = parse_item w ->
  p ∈ registered P ->
  namespace_set p = None ->
  multiple (target_attribute p) = false ->
  children node = pre ++ c :: post ->
  is_named (local_name p) c = true ->
  Forall (leaves_alone (registered P) (target_attribute p)) post ->
  parser P (Some node) session = Ok (root, session) ->
  dispatch_children (registered P) pre (root, session) = Ok (e1, s1) ->
  handler p c s1 = Ok (Some val, s2) ->
  (forall entity,
     call P (Some node) session = Ok entity ->
     scalar (target_attribute p) entity = Some val)
  /\ ((forall child q s, child ∈ children node -> q ∈ registered P ->
                         is_Ok (handler q child s)) ->
      exists entity,
        call P (Some node) session = Ok entity
        /\ scalar (target_attribute p) entity = Some val).
Proof.
  intros HP Hp Hns Hm Hkids Hc Hpost Hroot Hpre Hv.
  assert (Hfire : fire (registered P) c (e1, s1)
                  = Ok (apply e1 (target_attribute p) (Some val), s2)).
  { destruct HP as [-> | ->]; cbn [registered parse_channel parse_item] in *.
    - by rewrite (fire_channel_scalar p), Hv.
    - by rewrite (fire_item_scalar w p), Hv. }
  assert (Hlast : forall entity,
            call P (Some node) session = Ok entity ->
            scalar (target_attribute p) entity = Some val).
  { intros entity. unfold call, dispatch. rewrite Hroot, bind_Ok, Hkids.
    intros ([e3 s3] & Hd & [= <-])%bind_Ok_inv.
    by eapply (last_write_wins _ _ pre c post e1 s1 s2). }
  split; [exact Hlast|].
  intros Hok.
  destruct (dispatch_children_total (registered P) (children node)
              (root, session) Hok) as [[e3 s3] Hd].
  exists e3.
  assert (Hcall : call P (Some node) session = Ok e3).
  { unfold call, dispatch. by rewrite Hroot, bind_Ok, Hd. }
  split; [exact Hcall|by apply Hlast].
Qed.

(** *** The normaliser *)

Lemma entries_ensure_origin fd session :
  entries (ensure_origin fd session) = entries fd.
Proof.
  unfold ensure_origin, ensure_self_link, ensure_id.
  repeat case_match; reflexivity.
Qed.

Lemma entries_make_legal clock fd session :
  entries (make_legal_as_atom clock fd session) = entries fd.
Proof.
  unfold make_legal_as_atom, ensure_updated_at.
  case_match; cbn; apply entries_ensure_origin.
Qed.

Lemma timestamps_ensure_origin fd session :
  timestamps (ensure_origin fd session) = timestamps fd.
Proof. unfold timestamps. by rewrite entries_ensure_origin. Qed.

Lemma timestamps_make_legal clock fd session :
  timestamps (make_legal_as_atom clock fd session) = timestamps fd.
Proof. unfold timestamps. by rewrite entries_make_legal. Qed.

Lemma ensure_origin_set_entries l fd session :
  ensure_origin (set_entries l fd) session
  = set_entries l (ensure_origin fd session).
Proof.
  unfold ensure_origin. destruct (feed_url session) as [url|]; [|done].
  unfold ensure_self_link, ensure_id, scalar, collection.
  unfold set_entries, set_scalar, append. cbn.
  destruct (scalars fd !! "id"); cbn;
    destruct (existsb _ _); reflexivity.
Qed.

Lemma collections_ensure_updated_at clock fd :
  collections (ensure_updated_at clock fd) = collections fd.
Proof. unfold ensure_updated_at. by case_match. Qed.

Lemma scalar_ensure_updated_at_ne clock fd name :
  name <> "updated_at" ->
  scalar name (ensure_updated_at clock fd) = scalar name fd.
Proof.
  intros Hne. unfold ensure_updated_at. case_match; [done|].
  unfold scalar, set_scalar. cbn. by apply lookup_insert_ne.
Qed.

Lemma scalar_updated_at_ensure_origin fd session :
  scalar "updated_at" (ensure_origin fd session) = scalar "updated_at" fd.
Proof.
  unfold ensure_origin, ensure_self_link, ensure_id.
  repeat case_match; try reflexivity;
    unfold scalar, set_scalar, append; cbn; by rewrite lookup_insert_ne.
Qed.

Lemma scalar_id_ensure_origin fd url tz :
  scalar "id" fd = None ->
  scalar "id" (ensure_origin fd (mkRSSSession (Some url) tz)) = Some (VString url).
Proof.
  intros Hid. unfold ensure_origin, ensure_self_link, ensure_id. cbn.
  rewrite Hid. case_match; unfold scalar, set_scalar, append; cbn;
    apply lookup_insert_eq.
Qed.

Lemma self_link_ensure_origin fd url tz :
  exists l, VLink l ∈ collection "links" (ensure_origin fd (mkRSSSession (Some url) tz))
            /\ link_relation l = Some "self" /\ link_uri l = Some url.
Proof.
  unfold ensure_origin, ensure_self_link. cbn.
  destruct (existsb _ _) eqn:Hex.
  - apply existsb_exists in Hex as (v & Hv & Hself).
    destruct v; try discriminate. cbn in Hself.
    apply bool_decide_eq_true in Hself as [? ?].
    eexists. split; [by apply list_elem_of_In|done].
  - exists (mkLink (Some url) (Some "self") None). split; [|done].
    unfold collection at 1, append. cbn. rewrite lookup_insert_eq. cbn.
    apply elem_of_app. right. apply list_elem_of_here.
Qed.

Lemma latest_spec d ds :
  latest d ds ∈ d :: ds /\ forall x, x ∈ d :: ds -> x <= latest d ds.
Proof.
  unfold latest. induction ds as [|y ds [IHin IHle]]; cbn.
  - split; [apply list_elem_of_here|].
    intros x ->%list_elem_of_singleton. lia.
  - split.
    + destruct (Z.max_spec y (foldr Z.max d ds)) as [[_ ->]|[_ ->]].
      * apply elem_of_cons in IHin as [->|Hin].
        -- apply list_elem_of_here.
        -- by do 2 apply list_elem_of_further.
      * apply list_elem_of_further, list_elem_of_here.
    + intros x Hx. rewrite !elem_of_cons in Hx.
      destruct Hx as [->|[->|Hx]].
      * specialize (IHle d (list_elem_of_here _ _)). lia.
      * lia.
      * assert (x <= foldr Z.max d ds); [|lia].
        apply IHle. by apply list_elem_of_further.
Qed.

(** *** The entry point *)

Lemma parse_rss2_mapped w xml url parse_entry :
  parse_rss2 w xml url parse_entry
  = '(feed_data, session) ← mapped_feed w xml url parse_entry;
    Ok (make_legal_as_atom (now w) feed_data session, None).
Proof.
  unfold parse_rss2, mapped_feed, session_of.
  destruct (fromstring _) as [root|e]; [|done]. rewrite !bind_Ok. cbn zeta.
  destruct (call parse_channel _ _) as [fd|e]; [|done]. rewrite !bind_Ok.
  destruct parse_entry; [|done].
  destruct (findall_in _ _) as [items|e]; [|done]. rewrite !bind_Ok.
  destruct (mapM _ items) as [l|e]; done.
Qed.

Lemma call_parse_channel_entries (found : option Element) session fd :
  call parse_channel found session = Ok fd -> entries fd = None.
Proof.
  unfold call, dispatch. cbn [parser parse_channel]. rewrite bind_Ok.
  destruct found as [n|]; [|discriminate].
  intros ([e s] & Hd & [= <-])%bind_Ok_inv.
  by apply dispatch_children_entries in Hd.
Qed.

Lemma call_parse_channel_id (found : option Element) session fd :
  call parse_channel found session = Ok fd -> scalar "id" fd = None.
Proof.
  unfold call, dispatch. cbn [parser parse_channel]. rewrite bind_Ok.
  destruct found as [n|]; [|discriminate].
  intros ([e s] & Hd & [= <-])%bind_Ok_inv.
  apply (dispatch_children_leaves_alone _ "id") in Hd; [by rewrite Hd|].
  apply Forall_forall. intros x _. apply leaves_alone_channel_id.
Qed.

Lemma call_no_children (P : ParserBase) node session root :
  parser P (Some node) session = Ok (root, session) ->
  children node = [] ->
  call P (Some node) session = Ok root.
Proof. intros Hroot Hkids. unfold call, dispatch. by rewrite Hroot, Hkids. Qed.


(** C3: for a document whose channel has no item children, parsing with
    [parse_entry=True] returns, whenever the channel itself is mapped
    without failure (as it is when the channel has no children at all), a
    feed whose [entries] is assigned and is the empty list. *)
Theorem no_items_empty_entries w xml url root channel :
  fromstring (normalize_xml_encoding xml) = Ok root ->
  find "channel" root = Some channel ->
  findall "item" channel = [] ->
  (is_Ok (call parse_channel (Some channel) (session_of root url)) ->
   exists feed, parse_rss2 w xml url true = Ok (feed, None)
                /\ entries feed = Some [])
  /\ (children channel = [] ->
      exists feed, parse_rss2 w xml url true = Ok (feed, None)
                   /\ entries feed = Some []).
Proof.
  intros Hroot Hchannel Hitems.
  assert (Hmain : is_Ok (call parse_channel (Some channel) (session_of root url)) ->
                  exists feed, parse_rss2 w xml url true = Ok (feed, None)
                               /\ entries feed = Some []).
  { intros [fd Hfd]. eexists. split.
    - rewrite parse_rss2_mapped. unfold mapped_feed.
      rewrite Hroot, bind_Ok. cbn zeta. rewrite Hchannel, Hfd, bind_Ok.
      cbn [findall_in]. rewrite Hitems. reflexivity.
    - by rewrite entries_make_legal. }
  split; [exact Hmain|].
  intros Hkids. apply Hmain. exists (new Feed). by apply call_no_children.
Qed.

(** C5: when an item has a source element whose fetch, format detection or
    parse fails, the handler raises that failure, and the enclosing
    [parse_rss2] call with [parse_entry=True] fails: it returns no feed.
    When nothing failed before the source element was reached, the call
    fails with that very failure. *)
Theorem source_failure_aborts_parse w xml url root channel item src e :
  fromstring (normalize_xml_encoding xml) = Ok root ->
  find "channel" root = Some channel ->
  item ∈ findall "item" channel ->
  src ∈ children item ->
  is_named "source" src = true ->
  source_failure w src = Some e ->
  (forall session, parse_source w src session = Err e)
  /\ is_Err (parse_rss2 w xml url true)
  /\ (forall feed hint, parse_rss2 w xml url true <> Ok (feed, hint))
  /\ (forall rest pre post acc,
        is_Ok (call parse_channel (Some channel) (session_of root url)) ->
        findall "item" channel = item :: rest ->
        children item = pre ++ src :: post ->
        dispatch_children (item_paths w) pre (new Entry, session_of root url)
        = Ok acc ->
        parse_rss2 w xml url true = Err e).
Proof.
  intros Hroot Hchannel Hitem Hsrc Htag Hfail.
  assert (Hraise : forall session, parse_source w src session = Err e).
  { intros session. unfold parse_source. unfold source_failure in Hfail.
    destruct (open_url w (get src "url")) as [fetched|e1];
      [|by injection Hfail as ->].
    rewrite bind_Ok.
    destruct (get_format fetched) as [engine|e2];
      [|by injection Hfail as ->].
    rewrite bind_Ok.
    destruct (engine w fetched (get src "url") false) as [[source hint]|e3];
      [discriminate|by injection Hfail as ->]. }
  assert (Hitem_fails : forall session,
            is_Err (call (parse_item w) (Some item) session)).
  { intros session. unfold call, dispatch.
    cbn [parser parse_item registered]. rewrite bind_Ok.
    apply bind_is_Err. apply (dispatch_children_is_Err _ _ src); [done|].
    intros [e' s']. rewrite (fire_item_source _ _ _ _ Htag), Hraise.
    by exists e. }
  assert (Hparse : is_Err (parse_rss2 w xml url true)).
  { unfold parse_rss2. rewrite Hroot, bind_Ok. cbn zeta. rewrite Hchannel.
    destruct (call parse_channel _ _) as [fd|e0]; [|by exists e0].
    rewrite bind_Ok. apply bind_is_Err.
    cbn [findall_in]. rewrite bind_Ok. apply bind_is_Err.
    by apply (mapM_is_Err _ _ item). }
  split; [exact Hraise|]. split; [exact Hparse|].
  split; [intros feed hint; by apply is_Err_not_Ok|].
  intros rest pre post [e0 s0] [fd Hfd] Hitems Hkids Hpre.
  assert (Hcall : call (parse_item w) (Some item) (session_of root url) = Err e).
  { unfold call, dispatch. cbn [parser parse_item registered].
    rewrite bind_Ok, Hkids, dispatch_children_app, Hpre, bind_Ok.
    cbn [dispatch_children].
    by rewrite (fire_item_source _ _ _ _ Htag), Hraise. }
  unfold parse_rss2. rewrite Hroot, bind_Ok. cbn zeta. rewrite Hchannel.
  change (mkRSSSession url (guess_default_tzinfo root url))
    with (session_of root url).
  rewrite Hfd, bind_Ok. cbn [findall_in]. rewrite bind_Ok, Hitems.
  cbn [mapM]. by rewrite Hcall.
Qed.


Lemma scalar_updated_at_ensure clock fd :
  scalar "updated_at" (ensure_updated_at clock fd)
  = match scalar "updated_at" fd with
    | Some v => Some v
    | None => Some (VDatetime match timestamps fd with
                              | [] => clock
                              | d :: ds => latest d ds
                              end)
    end.
Proof.
  unfold ensure_updated_at.
  destruct (scalar "updated_at" fd) as [v|] eqn:Hv; [done|].
  unfold scalar, set_scalar. cbn. apply lookup_insert_eq.
Qed.

(** What [mapped_feed] returns: the channel as mapped, with the entries
    assigned when they were asked for. *)
Lemma mapped_feed_inv w xml url parse_entry fd session :
  mapped_feed w xml url parse_entry = Ok (fd, session) ->
  exists root mapped,
    fromstring (normalize_xml_encoding xml) = Ok root
    /\ session = session_of root url
    /\ call parse_channel (find "channel" root) session = Ok mapped
    /\ scalars fd = scalars mapped
    /\ collections fd = collections mapped
    /\ if parse_entry
       then exists channel entry_list,
           find "channel" root = Some channel
           /\ mapM (fun item => call (parse_item w) (Some item) session)
                   (findall "item" channel) = Ok entry_list
           /\ fd = set_entries entry_list mapped
       else fd = mapped.
Proof.
  unfold mapped_feed.
  intros (root & Hroot & H)%bind_Ok_inv. cbn zeta in H.
  apply bind_Ok_inv in H as (mapped & Hmapped & H).
  apply bind_Ok_inv in H as (fd' & H & [= <- <-]).
  exists root, mapped. do 3 (split; [done|]).
  destruct parse_entry.
  - apply bind_Ok_inv in H as (items & Hitems & H).
    apply bind_Ok_inv in H as (entry_list & Hlist & [= <-]).
    destruct (find "channel" root) as [channel|] eqn:Hch; [|discriminate].
    injection Hitems as <-.
    do 2 (split; [done|]). by exists channel, entry_list.
  - by injection H as <-.
Qed.

(** *** The timestamps of the entries *)

Lemma call_parse_item_updated_at w (found : option Element) session entry :
  call (parse_item w) found session = Ok entry ->
  scalar "updated_at" entry = None.
Proof.
  unfold call, dispatch. cbn [parser parse_item registered]. rewrite bind_Ok.
  destruct found as [n|]; [|discriminate].
  intros ([e s] & Hd & [= <-])%bind_Ok_inv.
  apply (dispatch_children_leaves_alone _ "updated_at") in Hd; [by rewrite Hd|].
  apply Forall_forall. intros x _. apply leaves_alone_item_updated_at.
Qed.

Lemma as_datetime_Some v x : as_datetime v = Some x <-> v = Some (VDatetime x).
Proof.
  unfold as_datetime. split.
  - destruct v as [[]|]; try discriminate. by intros [= ->].
  - by intros ->.
Qed.

(** An entry that [parse_item] made has no update time of its own: its
    timestamp is its publication time. *)
Lemma timestamps_dated fd entry_list :
  entries fd = Some entry_list ->
  (forall entry, entry ∈ entry_list -> scalar "updated_at" entry = None) ->
  forall x, x ∈ timestamps fd <-> dated fd x.
Proof.
  intros Hl Hnone x. unfold timestamps, dated. rewrite Hl. cbn [default].
  rewrite list_elem_of_omap. split.
  - intros (entry & Hin & Hx). exists entry_list, entry.
    do 2 (split; [done|]).
    unfold entry_timestamp in Hx. rewrite (Hnone _ Hin) in Hx.
    by apply as_datetime_Some.
  - intros (l & entry & [= <-] & Hin & Hx). exists entry. split; [done|].
    unfold entry_timestamp. rewrite (Hnone _ Hin). by apply as_datetime_Some.
Qed.

Lemma mapped_feed_dated w xml url parse_entry fd session :
  mapped_feed w xml url parse_entry = Ok (fd, session) ->
  forall x, x ∈ timestamps fd <-> dated fd x.
Proof.
  intros (root & mapped & _ & _ & Hcall & _ & _ & H)%mapped_feed_inv.
  destruct parse_entry.
  - destruct H as (channel & l & _ & Hl & ->).
    apply (timestamps_dated _ l); [done|].
    intros entry Hin.
    destruct (mapM_elem_of _ _ _ _ Hl Hin) as (item & _ & Hitem).
    by apply call_parse_item_updated_at in Hitem.
  - subst fd. intros x. unfold timestamps, dated.
    rewrite (call_parse_channel_entries _ _ _ Hcall). cbn [default]. split.
    + by intros ?%elem_of_nil.
    + by intros (? & ? & [=] & _).
Qed.

Lemma dated_make_legal clock fd session x :
  dated (make_legal_as_atom clock fd session) x <-> dated fd x.
Proof. unfold dated. by rewrite entries_make_legal. Qed.

(** The update time of the normalised feed: the one that was mapped, else
    the latest publication time of the entries, else the reading of the
    clock. *)
Lemma updated_at_make_legal w xml url parse_entry fd session :
  mapped_feed w xml url parse_entry = Ok (fd, session) ->
  let feed := make_legal_as_atom (now w) fd session in
  (forall v, scalar "updated_at" fd = Some v -> scalar "updated_at" feed = Some v)
  /\ (scalar "updated_at" fd = None -> (forall x, ~ dated feed x) ->
      scalar "updated_at" feed = Some (VDatetime (now w)))
  /\ (scalar "updated_at" fd = None -> forall x, dated feed x ->
      exists t, scalar "updated_at" feed = Some (VDatetime t)
                /\ dated feed t
                /\ forall y, dated feed y -> y <= t).
Proof.
  intros Hmapped feed.
  pose proof (mapped_feed_dated _ _ _ _ _ _ Hmapped) as Hts.
  assert (Hfeed : forall x, dated feed x <-> x ∈ timestamps fd).
  { intros x. unfold feed. by rewrite dated_make_legal, Hts. }
  unfold feed at 1 3 5. unfold make_legal_as_atom.
  rewrite scalar_updated_at_ensure, scalar_updated_at_ensure_origin.
  rewrite timestamps_ensure_origin.
  split; [|split].
  - by intros v ->.
  - intros -> Hnone. destruct (timestamps fd) as [|d ds]; [done|].
    destruct (Hnone d). apply Hfeed. apply list_elem_of_here.
  - intros -> x Hx. apply Hfeed in Hx.
    destruct (timestamps fd) as [|d ds] eqn:Hds; [by apply elem_of_nil in Hx|].
    destruct (latest_spec d ds) as [Hin Hle].
    exists (latest d ds). split; [done|]. split; [by apply Hfeed|].
    intros y Hy. apply Hle. by apply Hfeed.
Qed.

(** C7: the feed that [parse_rss2] returns for an origin URL has that URL
    as its identifier (no element of a channel is mapped to it), has a
    self link to that URL among its links, and has an update time: the one
    mapped from the channel if there is one; else the latest of the
    publication times of its entries, if an entry has one; else the
    reading of the clock at the call. *)
Theorem normalised_feed_invariants w xml url parse_entry feed hint :
  parse_rss2 w xml (Some url) parse_entry = Ok (feed, hint) ->
  scalar "id" feed = Some (VString url)
  /\ (exists l, VLink l ∈ collection "links" feed
                /\ link_relation l = Some "self" /\ link_uri l = Some url)
  /\ exists root mapped,
       fromstring (normalize_xml_encoding xml) = Ok root
       /\ call parse_channel (find "channel" root) (session_of root (Some url))
          = Ok mapped
       /\ (forall v, scalar "updated_at" mapped = Some v ->
                     scalar "updated_at" feed = Some v)
       /\ (scalar "updated_at" mapped = None -> (forall x, ~ dated feed x) ->
           scalar "updated_at" feed = Some (VDatetime (now w)))
       /\ (scalar "updated_at" mapped = None -> forall x, dated feed x ->
           exists t, scalar "updated_at" feed = Some (VDatetime t)
                     /\ dated feed t
                     /\ forall y, dated feed y -> y <= t).
Proof.
  rewrite parse_rss2_mapped.
  intros ([fd session] & Hmapped & [= <- <-])%bind_Ok_inv.
  pose proof (updated_at_make_legal _ _ _ _ _ _ Hmapped) as Htime.
  apply mapped_feed_inv in Hmapped
    as (root & mapped & Hroot & -> & Hcall & Hsc & Hco & _).
  assert (Hid : scalar "id" fd = None).
  { unfold scalar. rewrite Hsc. by apply (call_parse_channel_id _ _ _ Hcall). }
  assert (Hupd : scalar "updated_at" fd = scalar "updated_at" mapped).
  { unfold scalar. by rewrite Hsc. }
  split; [|split].
  - unfold make_legal_as_atom.
    rewrite scalar_ensure_updated_at_ne by discriminate.
    by apply scalar_id_ensure_origin.
  - unfold make_legal_as_atom, collection.
    rewrite collections_ensure_updated_at.
    apply self_link_ensure_origin.
  - exists root, mapped. do 2 (split; [done|]).
    rewrite <- Hupd. exact Htime.
Qed.


(** *** Two worlds *)

Lemma fire_ext paths paths' child :
  Forall2 (agree_on child) paths paths' ->
  forall acc, fire paths child acc = fire paths' child acc.
Proof.
  induction 1 as [|p q paths paths' (Hn & Hns & Ht & Hh) _ IH]; intros acc;
    [done|].
  cbn [fire]. unfold path_matches. rewrite Hn, Hns, Hh, Ht.
  destruct (_ && _); [|apply IH].
  destruct (handler q child (snd acc)) as [[value s']|err]; [|done].
  rewrite !bind_Ok. apply IH.
Qed.

Lemma dispatch_children_ext paths paths' nodes :
  (forall child acc, fire paths child acc = fire paths' child acc) ->
  forall acc, dispatch_children paths nodes acc = dispatch_children paths' nodes acc.
Proof.
  intros Hfire. induction nodes as [|c nodes IH]; intros acc; [done|].
  cbn [dispatch_children]. rewrite Hfire.
  destruct (fire paths' c acc) as [acc'|err]; [|done].
  rewrite !bind_Ok. apply IH.
Qed.

Lemma parse_source_ext w1 w2 :
  open_url w1 = open_url w2 ->
  (forall fetched engine, get_format fetched = Ok engine ->
     forall x u b, engine w1 x u b = engine w2 x u b) ->
  forall element session,
    parse_source w1 element session = parse_source w2 element session.
Proof.
  intros Hnet Hengine element session. unfold parse_source. rewrite Hnet.
  destruct (open_url w2 _) as [fetched|e]; [|done]. rewrite !bind_Ok.
  destruct (get_format fetched) as [engine|e] eqn:Hf; [|done].
  rewrite !bind_Ok. by rewrite (Hengine _ _ Hf).
Qed.

Lemma item_paths_agree w1 w2 child :
  (forall session, parse_source w1 child session = parse_source w2 child session) ->
  Forall2 (agree_on child) (item_paths w1) (item_paths w2).
Proof.
  intros Hsrc. unfold item_paths.
  repeat (constructor; [unfold agree_on; repeat split|]); [|constructor].
  intros. cbn [handler]. unfold as_value. by rewrite Hsrc.
Qed.

Lemma call_parse_item_ext w1 w2 :
  (forall element session,
     parse_source w1 element session = parse_source w2 element session) ->
  forall item session,
    call (parse_item w1) item session = call (parse_item w2) item session.
Proof.
  intros Hsrc item session. unfold call, dispatch.
  cbn [parser parse_item registered]. rewrite !bind_Ok.
  destruct item as [n|]; [|done].
  rewrite (dispatch_children_ext (item_paths w1) (item_paths w2)); [done|].
  intros child acc. apply fire_ext. apply item_paths_agree. intros s. apply Hsrc.
Qed.

Lemma mapped_feed_ext w1 w2 xml url parse_entry :
  (forall element session,
     parse_source w1 element session = parse_source w2 element session) ->
  mapped_feed w1 xml url parse_entry = mapped_feed w2 xml url parse_entry.
Proof.
  intros Hsrc. unfold mapped_feed.
  destruct (fromstring _) as [root|e]; [|done]. rewrite !bind_Ok. cbn zeta.
  destruct (call parse_channel _ _) as [fd|e]; [|done]. rewrite !bind_Ok.
  destruct parse_entry; [|done].
  destruct (findall_in _ _) as [items|e]; [|done]. rewrite !bind_Ok.
  rewrite (mapM_ext _ (fun item => call (parse_item w2) (Some item)
                                     (session_of root url))); [done|].
  intros item. by apply call_parse_item_ext.
Qed.

(** The non-entry mode does not reach the network. *)
Lemma mapped_feed_no_entry w1 w2 xml url :
  mapped_feed w1 xml url false = mapped_feed w2 xml url false.
Proof. reflexivity. Qed.

(** Two tables that differ at most in the handlers of registrations that
    do not match [child] fire alike on it. *)
Lemma fire_where_matching paths paths' child :
  Forall2 (fun p q =>
             local_name p = local_name q
             /\ namespace_set p = namespace_set q
             /\ target_attribute p = target_attribute q
             /\ (path_matches p child = true ->
                 forall session, handler p child session = handler q child session))
          paths paths' ->
  forall acc, fire paths child acc = fire paths' child acc.
Proof.
  induction 1 as [|p q paths paths' (Hn & Hns & Ht & Hh) _ IH]; intros acc;
    [done|].
  cbn [fire].
  assert (Hm : path_matches q child = path_matches p child).
  { unfold path_matches. by rewrite Hn, Hns. }
  rewrite Hm. destruct (path_matches p child); [|apply IH].
  rewrite (Hh eq_refl), Ht.
  destruct (handler q child (snd acc)) as [[value s']|err]; [|done].
  rewrite !bind_Ok. apply IH.
Qed.

Lemma fire_item_paths_alike w1 w2 child :
  (is_named "source" child = true -> resolves_alike w1 w2 child) ->
  forall acc, fire (item_paths w1) child acc = fire (item_paths w2) child acc.
Proof.
  intros Hsrc. apply fire_where_matching. unfold item_paths.
  repeat (constructor; [repeat split|]); [|constructor].
  intros Hm session. rewrite path_matches_plain in Hm.
  cbn [handler]. unfold as_value. by rewrite (Hsrc Hm session).
Qed.

Lemma dispatch_children_ext_in paths paths' nodes :
  (forall child, child ∈ nodes ->
     forall acc, fire paths child acc = fire paths' child acc) ->
  forall acc, dispatch_children paths nodes acc = dispatch_children paths' nodes acc.
Proof.
  induction nodes as [|c nodes IH]; intros Hfire acc; [done|].
  cbn [dispatch_children]. rewrite (Hfire c) by apply list_elem_of_here.
  destruct (fire paths' c acc) as [acc'|err]; [|done].
  rewrite !bind_Ok. apply IH.
  intros child Hchild. apply Hfire. by apply list_elem_of_further.
Qed.

(** The mapping of a document depends on the invocation only through the
    source elements of its items, and not at all when the items are not
    parsed. *)
Lemma mapped_feed_alike w1 w2 xml url parse_entry :
  (parse_entry = true -> sources_resolve_alike w1 w2 xml) ->
  mapped_feed w1 xml url parse_entry = mapped_feed w2 xml url parse_entry.
Proof.
  intros Hsrc. unfold mapped_feed.
  destruct (fromstring _) as [root|e] eqn:Hroot; [|done].
  rewrite !bind_Ok. cbn zeta.
  destruct (call parse_channel _ _) as [fd|e]; [|done]. rewrite !bind_Ok.
  destruct parse_entry; [|done].
  destruct (find "channel" root) as [channel|] eqn:Hch; [|done].
  cbn [findall_in]. rewrite !bind_Ok.
  rewrite (mapM_ext_in _ (fun item => call (parse_item w2) (Some item)
                                        (session_of root url))); [done|].
  intros item Hitem. unfold call, dispatch.
  cbn [parser parse_item registered]. rewrite !bind_Ok.
  rewrite (dispatch_children_ext_in (item_paths w1) (item_paths w2)); [done|].
  intros child Hchild. apply fire_item_paths_alike.
  intros Hnamed. by apply (Hsrc eq_refl root channel item child).
Qed.

(** The source elements resolve alike when the two invocations meet the
    same network and the parsers of the fetched documents do not read the
    clock. *)
Lemma sources_resolve_alike_same_network w1 w2 xml :
  open_url w1 = open_url w2 ->
  (forall fetched engine, get_format fetched = Ok engine ->
     forall x u b, engine w1 x u b = engine w2 x u b) ->
  sources_resolve_alike w1 w2 xml.
Proof.
  intros Hnet Hengine root channel item src _ _ _ _ _ session.
  by apply parse_source_ext.
Qed.

(** They do, vacuously, when no item has a source element. *)
Lemma sources_resolve_alike_no_source w1 w2 xml :
  (forall root channel item src,
     fromstring (normalize_xml_encoding xml) = Ok root ->
     find "channel" root = Some channel ->
     item ∈ findall "item" channel ->
     src ∈ children item ->
     is_named "source" src = false) ->
  sources_resolve_alike w1 w2 xml.
Proof.
  intros Hnone root channel item src Hroot Hch Hitem Hsrc Hnamed.
  rewrite (Hnone root channel item src) in Hnamed by done. discriminate.
Qed.

(** C8 (amended): two invocations on the same document and the same
    session either fail with the same exception or return feeds that
    agree on every field but the update time of the feed, provided that,
    when the items are parsed, the source elements of the items resolve
    alike in both (nothing is required when [parse_entry] is false or no
    item has a source element).  The update times differ only where each
    is the reading of the clock at its invocation: the channel gives the
    feed no date and no entry has a publication time.  With the same
    reading of the clock the two feeds are identical. *)
Theorem parse_rss2_twice w1 w2 xml url parse_entry :
  (parse_entry = true -> sources_resolve_alike w1 w2 xml) ->
  match parse_rss2 w1 xml url parse_entry, parse_rss2 w2 xml url parse_entry with
  | Ok (f1, h1), Ok (f2, h2) =>
      h1 = h2
      /\ entries f1 = entries f2
      /\ collections f1 = collections f2
      /\ (forall name, name <> "updated_at" -> scalar name f1 = scalar name f2)
      /\ (scalar "updated_at" f1 = scalar "updated_at" f2
          \/ ((forall x, ~ dated f1 x)
              /\ (forall x, ~ dated f2 x)
              /\ (exists root mapped,
                    fromstring (normalize_xml_encoding xml) = Ok root
                    /\ call parse_channel (find "channel" root)
                            (session_of root url) = Ok mapped
                    /\ scalar "updated_at" mapped = None)
              /\ scalar "updated_at" f1 = Some (VDatetime (now w1))
              /\ scalar "updated_at" f2 = Some (VDatetime (now w2))))
      /\ (now w1 = now w2 -> f1 = f2)
  | Err e1, Err e2 => e1 = e2
  | _, _ => False
  end.
Proof.
  intros Hsrc.
  rewrite !parse_rss2_mapped.
  rewrite (mapped_feed_alike w1 w2) by done.
  destruct (mapped_feed w2 xml url parse_entry) as [[fd session]|e] eqn:Hmapped;
    [|done].
  rewrite !bind_Ok. split; [done|].
  rewrite !entries_make_legal. split; [done|].
  pose proof (mapped_feed_dated _ _ _ _ _ _ Hmapped) as Hts.
  apply mapped_feed_inv in Hmapped
    as (root & mapped & Hroot & -> & Hcall & Hsc & _ & _).
  unfold make_legal_as_atom. rewrite !collections_ensure_updated_at.
  split; [done|]. split.
  { intros name Hne. by rewrite !scalar_ensure_updated_at_ne. }
  split.
  - fold (make_legal_as_atom (now w1) fd (session_of root url)).
    fold (make_legal_as_atom (now w2) fd (session_of root url)).
    assert (Hupd : scalar "updated_at" fd = scalar "updated_at" mapped).
    { unfold scalar. by rewrite Hsc. }
    unfold make_legal_as_atom at 1 2 5 6.
    rewrite !scalar_updated_at_ensure, timestamps_ensure_origin.
    rewrite scalar_updated_at_ensure_origin, Hupd.
    destruct (scalar "updated_at" mapped) eqn:Hmapped_at; [by left|].
    destruct (timestamps fd) as [|d ds] eqn:Hds; [right|by left].
    assert (Hnone : forall x, ~ dated fd x).
    { intros x Hx. apply Hts in Hx. by apply elem_of_nil in Hx. }
    split; [intros x; by rewrite dated_make_legal|].
    split; [intros x; by rewrite dated_make_legal|].
    split; [by exists root, mapped|done].
  - by intros ->.
Qed.


(** C10 (amended): with [parse_entry=False] the items are not visited:
    nothing is registered under the channel for an item, the call returns
    whenever the tree parser and the mapping of the channel do, whatever
    the items hold, and its result depends on the invocation through the
    reading of the clock only, not through the network; [entries] is never
    assigned.  Where the entry mode returns as well, the two feeds agree
    on every collection and on every scalar but the update time; the
    update times differ only when the channel has no date and an entry
    has a publication time: the entry mode then takes the latest
    publication time of the entries and the other mode reads the clock. *)
Theorem parse_entry_false_frame w xml url :
  (forall w', now w' = now w ->
              parse_rss2 w' xml url false = parse_rss2 w xml url false)
  /\ (forall child acc,
        tag child = "item" -> fire channel_paths child acc = Ok acc)
  /\ (is_Ok (parse_rss2 w xml url false)
      <-> exists root,
            fromstring (normalize_xml_encoding xml) = Ok root
            /\ is_Ok (call parse_channel (find "channel" root)
                           (session_of root url)))
  /\ forall fF hF,
       parse_rss2 w xml url false = Ok (fF, hF) ->
       entries fF = None
       /\ forall fT hT,
            parse_rss2 w xml url true = Ok (fT, hT) ->
            collections fF = collections fT
            /\ (forall name, name <> "updated_at" ->
                             scalar name fF = scalar name fT)
            /\ (scalar "updated_at" fF = scalar "updated_at" fT
                \/ (scalar "updated_at" fF = Some (VDatetime (now w))
                    /\ exists t,
                         scalar "updated_at" fT = Some (VDatetime t)
                         /\ dated fT t
                         /\ forall x, dated fT x -> x <= t)).
Proof.
  split; [|split; [apply fire_channel_item|split]].
  { intros w' Hclock. rewrite !parse_rss2_mapped.
    by rewrite (mapped_feed_no_entry w' w), Hclock. }
  { rewrite parse_rss2_mapped. unfold mapped_feed. split.
    - intros [[feed hint] H].
      apply bind_Ok_inv in H as ([fd session] & H & _).
      apply bind_Ok_inv in H as (root & Hroot & H). cbn zeta in H.
      apply bind_Ok_inv in H as (mapped & Hmapped & _).
      exists root. split; [done|by exists mapped].
    - intros (root & -> & [mapped Hmapped]). rewrite bind_Ok. cbn zeta.
      rewrite Hmapped. by eexists. }
  intros fF hF HF.
  rewrite parse_rss2_mapped in HF.
  apply bind_Ok_inv in HF as ([fdF sF] & HmF & [= <- <-]).
  apply mapped_feed_inv in HmF
    as (root & mapped & Hroot & -> & Hcall & _ & _ & ->).
  rewrite entries_make_legal.
  split; [by apply (call_parse_channel_entries _ _ _ Hcall)|].
  intros fT hT HT.
  rewrite parse_rss2_mapped in HT.
  apply bind_Ok_inv in HT as ([fdT sT] & HmT & [= <- <-]).
  pose proof (updated_at_make_legal _ _ _ _ _ _ HmT) as (Hkept & _ & Hlatest).
  pose proof (mapped_feed_dated _ _ _ _ _ _ HmT) as Hts.
  apply mapped_feed_inv in HmT
    as (root' & mapped' & Hroot' & -> & Hcall' & _ & _ & channel & l & _ & _ & ->).
  assert (root' = root) as -> by congruence.
  assert (mapped' = mapped) as -> by congruence.
  set (session := session_of root url) in *.
  split.
  { unfold make_legal_as_atom.
    by rewrite !collections_ensure_updated_at, ensure_origin_set_entries. }
  split.
  { intros name Hne. unfold make_legal_as_atom.
    by rewrite !scalar_ensure_updated_at_ne, ensure_origin_set_entries. }
  change (scalar "updated_at" (set_entries l mapped))
    with (scalar "updated_at" mapped) in Hkept, Hlatest.
  destruct (scalar "updated_at" mapped) as [v|] eqn:Hat.
  - left. rewrite (Hkept v eq_refl).
    unfold make_legal_as_atom.
    by rewrite scalar_updated_at_ensure, scalar_updated_at_ensure_origin, Hat.
  - assert (HF : scalar "updated_at" (make_legal_as_atom (now w) mapped session)
                 = Some (VDatetime (now w))).
    { unfold make_legal_as_atom.
      rewrite scalar_updated_at_ensure, scalar_updated_at_ensure_origin, Hat.
      rewrite timestamps_ensure_origin. unfold timestamps.
      by rewrite (call_parse_channel_entries _ _ _ Hcall). }
    destruct (timestamps (set_entries l mapped)) as [|d ds] eqn:Hds.
    + left. rewrite HF.
      unfold make_legal_as_atom.
      rewrite scalar_updated_at_ensure, scalar_updated_at_ensure_origin.
      rewrite timestamps_ensure_origin, Hds.
      change (scalar "updated_at" (set_entries l mapped))
        with (scalar "updated_at" mapped).
      by rewrite Hat.
    + right. split; [exact HF|].
      apply (Hlatest eq_refl d). apply dated_make_legal, Hts.
      apply list_elem_of_here.
Qed.

End ParseProperties.

(** ** Concrete runs *)

(** C1, counterexample: a braced UUID is matched, but the identifier built
    from it keeps the braces and is not the canonical URN. *)
Lemma parse_guid_braces_kept :
  GUID_PATTERN_match "{123e4567-e89b-12d3-a456-426614174000}" = true
  /\ parse_guid (guid_element "{123e4567-e89b-12d3-a456-426614174000}" ∅)
                sample_session
     = Ok (Some "urn:uuid:{123e4567-e89b-12d3-a456-426614174000}", sample_session)
  /\ canonical_urn "urn:uuid:{123e4567-e89b-12d3-a456-426614174000}" = false
  /\ ~ (forall (element : Element) (session : @RSSSession sample_types) t,
          text element = Some t ->
          String.prefix "http://" t = false ->
          GUID_PATTERN_match t = true ->
          exists id, parse_guid element session = Ok (Some id, session)
                     /\ canonical_urn id = true).
Proof.
  split; [vm_compute; reflexivity|].
  split; [vm_compute; reflexivity|].
  split; [vm_compute; reflexivity|].
  intros H.
  destruct (H (guid_element "{123e4567-e89b-12d3-a456-426614174000}" ∅)
              sample_session _ eq_refl eq_refl eq_refl) as (id & Hid & Hc).
  vm_compute in Hid. injection Hid as <-.
  vm_compute in Hc. discriminate Hc.
Qed.

(** The four inputs of the specification, through the decision list. *)
Lemma parse_guid_decision_list_witness :
  parse_guid (guid_element "123e4567-e89b-12d3-a456-426614174000" ∅) sample_session
  = Ok (Some "urn:uuid:123e4567-e89b-12d3-a456-426614174000", sample_session)
  /\ parse_guid (guid_element "http://example.com/1" {[ "isPermalink" := "False" ]})
                sample_session
     = Ok (None, sample_session)
  /\ parse_guid (guid_element "http://example.com/1" ∅) sample_session
     = Ok (Some "http://example.com/1", sample_session)
  /\ parse_guid (guid_element "not-a-guid-or-url" ∅) sample_session
     = Ok (None, sample_session).
Proof.
  split; [|split; [|split]].
  - destruct (parse_guid_decision_list
                (guid_element "123e4567-e89b-12d3-a456-426614174000" ∅)
                sample_session _ eq_refl) as (_ & _ & _ & Huuid).
    apply Huuid. vm_compute; reflexivity.
  - destruct (parse_guid_decision_list
                (guid_element "http://example.com/1"
                              {[ "isPermalink" := "False" ]})
                sample_session _ eq_refl) as (_ & _ & Hnone & _).
    apply Hnone; [right|]; vm_compute; reflexivity.
  - destruct (parse_guid_decision_list
                (guid_element "http://example.com/1" ∅)
                sample_session _ eq_refl) as (Hurl & _).
    apply Hurl; [vm_compute; reflexivity|vm_compute; discriminate].
  - destruct (parse_guid_decision_list
                (guid_element "not-a-guid-or-url" ∅)
                sample_session _ eq_refl) as (_ & _ & Hnone & _).
    apply Hnone; [left|]; vm_compute; reflexivity.
Defined.

(** The minimal document, parsed with its entries. *)
Lemma no_items_empty_entries_witness :
  exists feed,
    sample_parse_rss2 (offline 1000) xml_minimal (Some sample_url) true
    = Ok (feed, None)
    /\ entries feed = Some [].
Proof.
  apply (no_items_empty_entries (C := sample_collaborators) (offline 1000)
           xml_minimal (Some sample_url)
           doc_minimal (node "channel" []));
    reflexivity.
Defined.

(** A channel with two titles around a link. *)
Lemma repeated_scalar_last_wins_witness :
  exists entity,
    call (C := sample_collaborators) (parse_channel (C := sample_collaborators))
         (Some channel_two_titles) sample_session = Ok entity
    /\ scalar "title" entity = Some (VText ("second" : @Text sample_types)).
Proof.
  eapply (repeated_scalar_last_wins (C := sample_collaborators) (offline 0)
            parse_channel channel_two_titles sample_session (new Feed)
            [title_first; link_home] title_second [] _ _
            (mkPath "title" None "title" (as_value VText parse_text))).
  - left; reflexivity.
  - do 5 apply list_elem_of_further. apply list_elem_of_here.
  - reflexivity.
  - reflexivity.
  - reflexivity.
  - reflexivity.
  - constructor.
  - reflexivity.
  - vm_compute; reflexivity.
  - vm_compute; reflexivity.
  - intros child q s Hchild Hq.
    cbn [channel_two_titles node children] in Hchild.
    cbn [registered parse_channel] in Hq. unfold channel_paths in Hq.
    rewrite !elem_of_cons, elem_of_nil in Hchild.
    rewrite !elem_of_cons, elem_of_nil in Hq.
    repeat (destruct Hchild as [->|Hchild]); [..|destruct Hchild];
      (repeat (destruct Hq as [->|Hq]); [..|destruct Hq]);
      vm_compute; eexists; reflexivity.
Defined.

(** An item whose source cannot be fetched. *)
Lemma source_failure_aborts_parse_witness :
  sample_parse_rss2 (offline 1000) xml_with_source (Some sample_url) true
  = Err FetchError.
Proof.
  destruct (source_failure_aborts_parse (C := sample_collaborators)
              (offline 1000) xml_with_source (Some sample_url)
              doc_with_source (node "channel" [item_quoted])
              item_quoted source_origin FetchError) as (_ & _ & _ & Hexact).
  - reflexivity.
  - reflexivity.
  - apply (list_elem_of_here item_quoted []).
  - apply list_elem_of_further, list_elem_of_here.
  - reflexivity.
  - reflexivity.
  - eapply (Hexact [] [leaf "title" (Some "quoted")] []).
    + eexists. vm_compute; reflexivity.
    + reflexivity.
    + reflexivity.
    + vm_compute; reflexivity.
Defined.

Lemma sample_scheme_raises (x : option string) (e : Error) :
  sample_scheme x = Err e -> e = ValueError.
Proof.
  unfold sample_scheme. destruct x as [s|]; [|discriminate].
  repeat case_match; congruence.
Qed.

(** A generator with an http URL, one whose URL does not parse, one with
    plain text; and one without text, under the [urlparse] of Python 2. *)
Lemma parse_generator_catches_ValueError_witness :
  parse_generator (C := sample_collaborators)
    (leaf "generator" (Some "http://wordpress.org/?v=3.5")) sample_session
  = Ok (Some (mkGenerator (Some "http://wordpress.org/?v=3.5") None), sample_session)
  /\ parse_generator (C := sample_collaborators)
       (leaf "generator" (Some "http://[broken")) sample_session
     = Ok (Some (mkGenerator None (Some "http://[broken")), sample_session)
  /\ parse_generator (C := sample_collaborators)
       (leaf "generator" (Some "Feed Tool 1.0")) sample_session
     = Ok (Some (mkGenerator None (Some "Feed Tool 1.0")), sample_session)
  /\ parse_generator (C := python2_collaborators) generator_empty sample_session
     = Err AttributeError.
Proof.
  split; [|split; [|split]].
  - destruct (parse_generator_catches_ValueError (C := sample_collaborators)
                (leaf "generator" (Some "http://wordpress.org/?v=3.5"))
                sample_session) as (Hhttp & _).
    apply (Hhttp "http"); [reflexivity|by left].
  - destruct (parse_generator_catches_ValueError (C := sample_collaborators)
                (leaf "generator" (Some "http://[broken"))
                sample_session) as (_ & _ & Hcaught & _).
    apply Hcaught. reflexivity.
  - destruct (parse_generator_catches_ValueError (C := sample_collaborators)
                (leaf "generator" (Some "Feed Tool 1.0"))
                sample_session) as (_ & Hother & _).
    apply (Hother ""); [reflexivity|discriminate|discriminate].
  - destruct (parse_generator_catches_ValueError (C := python2_collaborators)
                generator_empty sample_session) as (_ & _ & _ & Hraised & _).
    apply Hraised; [reflexivity|discriminate].
Defined.

(** C6, counterexample: with the [urlparse] of Python 2 the handler fails
    on a generator element without text. *)
Lemma parse_generator_lets_AttributeError_through :
  parse_generator (C := python2_collaborators) generator_empty sample_session
  = Err AttributeError
  /\ ~ exists g,
       parse_generator (C := python2_collaborators) generator_empty sample_session
       = Ok (Some g, sample_session).
Proof.
  split; [reflexivity|]. intros [g Hg]. discriminate Hg.
Qed.

(** A feed of two items dated 60 and 120, parsed at time 1000 for an
    origin URL: the identifier is the URL, the update time is 120. *)
Lemma normalised_feed_invariants_witness :
  exists feed,
    sample_parse_rss2 (offline 1000) xml_dated_items (Some sample_url) true
    = Ok (feed, None)
    /\ scalar "id" feed = Some (VString sample_url)
    /\ scalar "updated_at" feed = Some (VDatetime 120).
Proof.
  pose proof (normalised_feed_invariants (C := sample_collaborators)
                (offline 1000) xml_dated_items sample_url true) as H.
  eexists. split; [vm_compute; reflexivity|].
  match goal with
  | |- scalar "id" ?f = _ /\ _ =>
      destruct (H f None) as (Hid & _ & root & mapped & Hroot & Hcall & _ & _ & Hlatest)
  end.
  { vm_compute; reflexivity. }
  split; [exact Hid|].
  vm_compute in Hroot. injection Hroot as <-.
  vm_compute in Hcall. injection Hcall as <-.
  destruct (Hlatest eq_refl 120) as (t & Hupd & Hdated & Hmax).
  { eexists _, _. split; [vm_compute; reflexivity|].
    split; [apply list_elem_of_further, list_elem_of_here|].
    vm_compute; reflexivity. }
  rewrite Hupd. do 2 f_equal.
  assert (Hle : 120 <= t).
  { apply Hmax. eexists _, _. split; [vm_compute; reflexivity|].
    split; [apply list_elem_of_further, list_elem_of_here|].
    vm_compute; reflexivity. }
  destruct Hdated as (l & entry & Hl & Hin & Hpub).
  vm_compute in Hl. injection Hl as <-.
  rewrite !elem_of_cons, elem_of_nil in Hin.
  destruct Hin as [->|[->|[]]]; vm_compute in Hpub; injection Hpub as <-.
  - lia.
  - reflexivity.
Defined.

(** C8, counterexample: the minimal document parsed for the same origin
    URL at two different times gives two different feeds. *)
Lemma parse_rss2_depends_on_clock :
  exists f1 f2,
    sample_parse_rss2 (offline 1) xml_minimal (Some sample_url) true
    = Ok (f1, None)
    /\ sample_parse_rss2 (offline 2) xml_minimal (Some sample_url) true
       = Ok (f2, None)
    /\ scalar "updated_at" f1 = Some (VDatetime 1)
    /\ scalar "updated_at" f2 = Some (VDatetime 2)
    /\ f1 <> f2.
Proof.
  do 2 eexists.
  split; [vm_compute; reflexivity|].
  split; [vm_compute; reflexivity|].
  split; [vm_compute; reflexivity|].
  split; [vm_compute; reflexivity|].
  intros H. apply (f_equal (scalar "updated_at")) in H.
  vm_compute in H. discriminate H.
Qed.

Lemma sample_engines_ignore_world (w1 w2 : World) fetched
    (engine : @ParseEngine sample_types) :
  get_format (Collaborators := sample_collaborators) fetched = Ok engine ->
  forall x u b, engine w1 x u b = engine w2 x u b.
Proof.
  cbn [get_format sample_collaborators]. unfold sample_get_format.
  destruct (String.eqb fetched "<feed/>"); [|discriminate].
  by intros [= <-].
Qed.

(** The item with a source, parsed at times 1 and 2 over the same
    network, by a parser that does not read the clock. *)
Lemma parse_rss2_twice_witness :
  match sample_parse_rss2 (online 1) xml_with_source (Some sample_url) true,
        sample_parse_rss2 (online 2) xml_with_source (Some sample_url) true with
  | Ok (f1, h1), Ok (f2, h2) =>
      h1 = h2
      /\ entries f1 = entries f2
      /\ collections f1 = collections f2
      /\ (forall name, name <> "updated_at" -> scalar name f1 = scalar name f2)
      /\ (scalar "updated_at" f1 = scalar "updated_at" f2
          \/ ((forall x, ~ dated f1 x)
              /\ (forall x, ~ dated f2 x)
              /\ (exists root mapped,
                    sample_fromstring xml_with_source = Ok root
                    /\ call (C := sample_collaborators)
                            (parse_channel (C := sample_collaborators))
                            (find "channel" root)
                            (session_of (C := sample_collaborators)
                                        root (Some sample_url)) = Ok mapped
                    /\ scalar "updated_at" mapped = None)
              /\ scalar "updated_at" f1 = Some (VDatetime 1)
              /\ scalar "updated_at" f2 = Some (VDatetime 2)))
      /\ (1 = 2 -> f1 = f2)
  | Err e1, Err e2 => e1 = e2
  | _, _ => False
  end.
Proof.
  apply (parse_rss2_twice (C := sample_collaborators)
           (online 1) (online 2) xml_with_source (Some sample_url) true).
  intros _ root channel item src _ _ _ _ _ session.
  apply parse_source_ext.
  - reflexivity.
  - apply sample_engines_ignore_world.
Defined.

(** Over the same network, a source whose parser reads the clock does
    not resolve alike at two different times, and the entries of the two
    feeds differ. *)
Lemma parse_rss2_source_reads_clock :
  exists f1 f2,
    parse_rss2 (C := clocked_collaborators)
      (online 1) xml_with_source (Some sample_url) true = Ok (f1, None)
    /\ parse_rss2 (C := clocked_collaborators)
         (online 2) xml_with_source (Some sample_url) true = Ok (f2, None)
    /\ only_source f1 = Some (@VSource sample_types "parsed at 1")
    /\ only_source f2 = Some (@VSource sample_types "parsed later")
    /\ entries f1 <> entries f2
    /\ ~ resolves_alike (C := clocked_collaborators)
          (online 1) (online 2) source_origin.
Proof.
  do 2 eexists.
  split; [vm_compute; reflexivity|].
  split; [vm_compute; reflexivity|].
  split; [vm_compute; reflexivity|].
  split; [vm_compute; reflexivity|].
  split.
  - intros H.
    match type of H with
    | entries ?f1 = entries ?f2 =>
        assert (Hs : only_source f1 = only_source f2)
          by (unfold only_source; by rewrite H)
    end.
    vm_compute in Hs. discriminate Hs.
  - intros H. specialize (H sample_session). vm_compute in H. discriminate H.
Qed.

(** C10, counterexample: for the two dated items the update time of the
    feed is the latest item timestamp with the entries, and the reading of
    the clock without them. *)
Lemma entry_mode_changes_updated_at :
  exists fT fF,
    sample_parse_rss2 (offline 1000) xml_dated_items (Some sample_url) true
    = Ok (fT, None)
    /\ sample_parse_rss2 (offline 1000) xml_dated_items (Some sample_url) false
       = Ok (fF, None)
    /\ scalar "updated_at" fT = Some (VDatetime 120)
    /\ scalar "updated_at" fF = Some (VDatetime 1000)
    /\ scalar "updated_at" fT <> scalar "updated_at" fF.
Proof.
  do 2 eexists.
  split; [vm_compute; reflexivity|].
  split; [vm_compute; reflexivity|].
  split; [vm_compute; reflexivity|].
  split; [vm_compute; reflexivity|].
  vm_compute. discriminate.
Qed.

(** The podcast channel, one of whose items has a guid without text: the
    entry mode fails on it, the other mode returns a feed without entries.
    The two dated items in both modes, parsed at time 1000: the update
    time is 120 with the entries and 1000 without. *)
Lemma parse_entry_false_frame_witness :
  (exists fF,
     parse_rss2 (C := tree_collaborators doc_podcast)
       (offline 1000) xml_minimal (Some sample_url) false = Ok (fF, None)
     /\ entries fF = None)
  /\ is_Err (parse_rss2 (C := tree_collaborators doc_podcast)
               (offline 1000) xml_minimal (Some sample_url) true)
  /\ exists fT fF,
       sample_parse_rss2 (offline 1000) xml_dated_items (Some sample_url) true
       = Ok (fT, None)
       /\ sample_parse_rss2 (offline 1000) xml_dated_items (Some sample_url) false
          = Ok (fF, None)
       /\ entries fF = None
       /\ collections fF = collections fT
       /\ scalar "title" fF = scalar "title" fT
       /\ scalar "updated_at" fF = Some (VDatetime 1000)
       /\ scalar "updated_at" fT = Some (VDatetime 120).
Proof.
  split; [|split].
  - destruct (parse_entry_false_frame (C := tree_collaborators doc_podcast)
                (offline 1000) xml_minimal (Some sample_url))
      as (_ & _ & _ & Hframe).
    eexists. split; [vm_compute; reflexivity|].
    match goal with
    | |- entries ?fF = None => destruct (Hframe fF None) as [Hentries _]
    end.
    + vm_compute; reflexivity.
    + exact Hentries.
  - exists AttributeError. vm_compute; reflexivity.
  - destruct (parse_entry_false_frame (C := sample_collaborators)
                (offline 1000) xml_dated_items (Some sample_url))
      as (_ & _ & _ & Hframe).
    do 2 eexists.
    split; [vm_compute; reflexivity|].
    split; [vm_compute; reflexivity|].
    match goal with
    | |- entries ?fF = None /\ collections ?fF = collections ?fT /\ _ =>
        destruct (Hframe fF None) as [Hentries Hboth];
          [vm_compute; reflexivity|];
        destruct (Hboth fT None) as (Hcollections & Hscalars & Htime);
          [vm_compute; reflexivity|]
    end.
    split; [exact Hentries|]. split; [exact Hcollections|].
    split; [by apply Hscalars|].
    destruct Htime as [Hsame|(Hclock & t & Hupd & Hdated & Hmax)].
    { vm_compute in Hsame. discriminate Hsame. }
    split; [exact Hclock|].
    rewrite Hupd. do 2 f_equal.
    assert (Hle : 120 <= t).
    { apply Hmax. eexists _, _. split; [vm_compute; reflexivity|].
      split; [apply list_elem_of_further, list_elem_of_here|].
      vm_compute; reflexivity. }
    destruct Hdated as (l & entry & Hl & Hin & Hpub).
    vm_compute in Hl. injection Hl as <-.
    rewrite !elem_of_cons, elem_of_nil in Hin.
    destruct Hin as [->|[->|[]]]; vm_compute in Hpub; injection Hpub as <-.
    + lia.
    + reflexivity.
Defined.

(** ** More on the pattern *)

Lemma append_assoc_string a b c : (a +:+ b) +:+ c = a +:+ (b +:+ c).
Proof.
  induction a as [|x a IH]; [done|]. by rewrite !append_String, IH.
Qed.

Lemma length_append_string a b :
  String.length (a +:+ b) = (String.length a + String.length b)%nat.
Proof.
  induction a as [|x a IH]; [done|]. rewrite append_String. cbn. by rewrite IH.
Qed.

Lemma re_end_true s : re_end s = true <-> s = "".
Proof. unfold re_end. apply String.eqb_eq. Qed.

Lemma re_class_splits p : splits (re_class p) 1.
Proof.
  intros k s. split.
  - destruct s as [|c s]; [discriminate|]. cbn [re_class].
    intros [Hp Hk]%andb_true_iff.
    exists (String c ""), s. repeat split; [|done].
    cbn. by rewrite Hp.
  - intros (u & rest & -> & Hlen & Hu & Hk).
    destruct u as [|c [|d u]]; try discriminate Hlen.
    rewrite append_String, append_nil_l. cbn [re_class] in *.
    apply andb_true_iff in Hu as [-> _]. by rewrite Hk.
Qed.

Lemma splits_compose r1 r2 n1 n2 :
  splits r1 n1 -> splits r2 n2 -> splits (fun k => r1 (r2 k)) (n1 + n2).
Proof.
  intros H1 H2 k s. split.
  - intros (u1 & rest1 & -> & Hl1 & Hu1 & Hr)%H1.
    apply H2 in Hr as (u2 & rest & -> & Hl2 & Hu2 & Hk).
    exists (u1 +:+ u2), rest. split; [by rewrite append_assoc_string|].
    split; [by rewrite length_append_string, Hl1, Hl2|]. split; [|done].
    apply H1. exists u1, u2. repeat split; done.
  - intros (u & rest & -> & Hlen & Hu & Hk).
    apply H1 in Hu as (u1 & rest1 & -> & Hl1 & Hu1 & Hr).
    apply H2 in Hr as (u2 & rest2 & -> & Hl2 & Hu2 & ->%re_end_true).
    rewrite append_nil_r, append_assoc_string.
    apply H1. exists u1, (u2 +:+ rest). repeat split; [done..|].
    apply H2. exists u2, rest. repeat split; done.
Qed.

Lemma re_char_splits c : splits (re_char (String c "")) 1.
Proof. apply re_class_splits. Qed.

Lemma hex_run_splits n : splits (hex_run n) n.
Proof.
  unfold hex_run. induction n as [|n IH]; cbn [re_rep].
  - intros k s. split.
    + intros Hk. exists "", s. repeat split; done.
    + intros (u & rest & -> & Hlen & _ & Hk).
      destruct u; [done|discriminate Hlen].
  - apply (splits_compose (re_class hexdigit) (re_rep n (re_class hexdigit)) 1 n);
      [apply re_class_splits|exact IH].
Qed.

Lemma splits_compose_eq r1 r2 n1 n2 n :
  splits r1 n1 -> splits r2 n2 -> n = (n1 + n2)%nat ->
  splits (fun k => r1 (r2 k)) n.
Proof. intros H1 H2 ->. by apply splits_compose. Qed.

Lemma splits_nothing : splits (fun k => k) 0.
Proof. exact (hex_run_splits 0). Qed.

Lemma uuid_groups_splits : splits uuid_groups 36.
Proof.
  unfold uuid_groups.
  repeat lazymatch goal with
  | |- splits (fun k => hex_run ?n (@?r k)) _ =>
      eapply (splits_compose_eq (hex_run n) r); [apply hex_run_splits| |]
  | |- splits (fun k => re_char ?c (@?r k)) _ =>
      eapply (splits_compose_eq (re_char c) r); [apply re_char_splits| |]
  end.
  all: try apply splits_nothing.
  all: reflexivity.
Qed.

Lemma uuid_text_length u : uuid_text u = true -> String.length u = 36%nat.
Proof.
  intros (u' & rest & -> & Hlen & _ & ->%re_end_true)%uuid_groups_splits.
  by rewrite append_nil_r.
Qed.

Lemma re_dollar_true s : re_dollar s = true <-> s = "" \/ s = newline.
Proof.
  unfold re_dollar. rewrite orb_true_iff, !String.eqb_eq. reflexivity.
Qed.

Lemma closing_true rest :
  re_opt (re_char "}") re_dollar rest = true <->
  exists c n, rest = c +:+ n /\ (c = "" \/ c = "}") /\ (n = "" \/ n = newline).
Proof.
  unfold re_opt. rewrite orb_true_iff. split.
  - intros [H|H].
    + apply (re_char_splits "}") in H as (u & n & -> & Hlen & Hu & Hn).
      destruct u as [|c [|d u]]; try discriminate Hlen.
      cbn [re_char re_class] in Hu. apply andb_true_iff in Hu as [Hc _].
      apply Ascii.eqb_eq in Hc as <-.
      exists "}", n. apply re_dollar_true in Hn. auto.
    + apply re_dollar_true in H. exists "", rest. auto.
  - intros (c & n & -> & [-> | ->] & Hn%re_dollar_true).
    + right. by rewrite append_nil_l.
    + left. rewrite append_String, append_nil_l. cbn. exact Hn.
Qed.

(** X1: [GUID_PATTERN] matches exactly the strings made of an optional
    opening brace, a UUID in textual form, an optional closing brace and
    an optional final newline; the braces need not be balanced. *)
Theorem GUID_PATTERN_match_shape (s : string) :
  GUID_PATTERN_match s = true <-> guid_shape s.
Proof.
  unfold GUID_PATTERN_match, re_opt at 1, guid_shape.
  rewrite orb_true_iff. split.
  - intros [H|H].
    + apply (re_char_splits "{") in H as (o & s' & -> & Hlen & Ho & H).
      destruct o as [|a [|b o]]; try discriminate Hlen.
      cbn [re_char re_class] in Ho. apply andb_true_iff in Ho as [Ha _].
      apply Ascii.eqb_eq in Ha as <-.
      apply uuid_groups_splits in H as (u & rest & -> & _ & Hu & Hrest).
      apply closing_true in Hrest as (c & n & -> & Hc & Hn).
      exists "{", u, c, n. repeat split; auto.
    + apply uuid_groups_splits in H as (u & rest & -> & _ & Hu & Hrest).
      apply closing_true in Hrest as (c & n & -> & Hc & Hn).
      exists "", u, c, n. repeat split; auto.
  - intros (o & u & c & n & -> & Ho & Hu & Hc & Hn).
    assert (Hbody : uuid_groups (re_opt (re_char "}") re_dollar)
                      (u +:+ c +:+ n) = true).
    { apply uuid_groups_splits. exists u, (c +:+ n).
      split; [done|]. split; [by apply uuid_text_length|]. split; [done|].
      apply closing_true. eauto. }
    destruct Ho as [-> | ->].
    + right. by rewrite append_nil_l.
    + left. rewrite append_String, append_nil_l. cbn. exact Hbody.
Qed.

(** X2: a string that [GUID_PATTERN] matches has between 36 and 39
    characters. *)
Theorem GUID_PATTERN_match_length (s : string) :
  GUID_PATTERN_match s = true ->
  (36 <= String.length s <= 39)%nat.
Proof.
  intros (o & u & c & n & -> & Ho & Hu & Hc & Hn)%GUID_PATTERN_match_shape.
  rewrite !length_append_string, (uuid_text_length _ Hu).
  destruct Ho as [-> | ->], Hc as [-> | ->], Hn as [-> | ->]; cbn; lia.
Qed.

(** A string whose first character is neither an opening brace nor a
    hexadecimal digit is not matched, and neither is the empty string. *)
Lemma GUID_PATTERN_first_char c s :
  c <> "{"%char -> hexdigit c = false ->
  GUID_PATTERN_match (String c s) = false.
Proof.
  intros Hc Hh. unfold GUID_PATTERN_match, re_opt, uuid_groups, hex_run.
  cbn [re_rep re_class re_char]. rewrite Hh.
  rewrite (proj2 (Ascii.eqb_neq "{" c)); [done|congruence].
Qed.

(** ** More on the handlers *)

Lemma prefix_http_first t :
  String.prefix "http://" t = true -> exists s, t = String "h" s.
Proof.
  destruct t as [|c s]; [discriminate|]. cbn [String.prefix].
  destruct (ascii_dec "h" c) as [<-|]; [eauto|discriminate].
Qed.

Lemma prefix_http_no_match t :
  String.prefix "http://" t = true -> GUID_PATTERN_match t = false.
Proof.
  intros [s ->]%prefix_http_first.
  by apply GUID_PATTERN_first_char.
Qed.

Section MoreHandlerProperties.

Context {T : Types} {C : Collaborators}.

(** X3: the two tests of the guid handler never both hold.  On a text
    that starts with [http://] the handler returns the text, or [None]
    when [isPermalink] is ["False"]; it never builds a URN from it. *)
Theorem parse_guid_on_url (element : Element) (session : RSSSession) t :
  text element = Some t ->
  String.prefix "http://" t = true ->
  GUID_PATTERN_match t = false
  /\ parse_guid element session
     = Ok (if bool_decide (get element "isPermalink" = Some "False")
           then None else Some t, session).
Proof.
  intros Ht Hp. pose proof (prefix_http_no_match _ Hp) as Hm.
  split; [exact Hm|]. unfold parse_guid. rewrite Ht, Hp, Hm.
  by case_bool_decide.
Qed.

(** X4: the guid handler takes the text as it stands, without stripping
    it.  A text that does not start with [http://] leaves the identifier
    unset as soon as it is shorter than 36 or longer than 39 characters,
    or starts with a character that is neither an opening brace nor a
    hexadecimal digit (a blank, the [h] of [https://], the [u] of
    [urn:]). *)
Theorem parse_guid_unset (element : Element) (session : RSSSession) t :
  text element = Some t ->
  String.prefix "http://" t = false ->
  (String.length t < 36)%nat \/ (39 < String.length t)%nat
  \/ (exists c s, t = String c s /\ c <> "{"%char /\ hexdigit c = false) ->
  parse_guid element session = Ok (None, session).
Proof.
  intros Ht Hp Hshape.
  assert (Hm : GUID_PATTERN_match t = false).
  { destruct (GUID_PATTERN_match t) eqn:Hm; [exfalso|done].
    destruct Hshape as [Hlt|[Hgt|(c & s & -> & Hc & Hh)]].
    - apply GUID_PATTERN_match_length in Hm. lia.
    - apply GUID_PATTERN_match_length in Hm. lia.
    - by rewrite GUID_PATTERN_first_char in Hm. }
  unfold parse_guid. by rewrite Ht, Hp, Hm.
Qed.

(** X5: the guid handler reads the text of the element and its
    [isPermalink] attribute and nothing else: two elements that agree on
    both are classified alike, and setting any other attribute (the
    [isPermaLink] of RSS 2.0 among them) changes nothing. *)
Theorem parse_guid_reads_text_and_flag
    (element element' : Element) (session : RSSSession) :
  (text element = text element' ->
   get element "isPermalink" = get element' "isPermalink" ->
   parse_guid element session = parse_guid element' session)
  /\ (forall key value, key <> "isPermalink" ->
        parse_guid (with_attribute key value element) session
        = parse_guid element session).
Proof.
  split.
  - intros Ht Hf. unfold parse_guid. by rewrite Ht, Hf.
  - intros key value Hne. unfold parse_guid, get, with_attribute.
    cbn [text attrib]. by rewrite lookup_insert_ne.
Qed.

(** X6: an identifier that the guid handler took from a URL is returned
    again when it is the text of a guid element with the same attributes;
    an identifier that the handler built from a UUID is not: as a guid
    text, [urn:uuid:...] leaves the identifier unset. *)
Theorem parse_guid_again (element : Element) (session : RSSSession) id :
  parse_guid element session = Ok (Some id, session) ->
  (text element = Some id
   /\ parse_guid (guid_element id (attrib element)) session
      = Ok (Some id, session))
  \/ (exists t, text element = Some t /\ id = "urn:uuid:" +:+ t
      /\ parse_guid (guid_element id (attrib element)) session
         = Ok (None, session)).
Proof.
  unfold parse_guid at 1.
  destruct (text element) as [t|] eqn:Ht; [|discriminate].
  destruct (String.prefix "http://" t && _) eqn:Hurl.
  - intros [= <-]. left. split; [done|].
    unfold parse_guid, guid_element, get in *. cbn [text attrib].
    by rewrite Hurl.
  - destruct (GUID_PATTERN_match t); [|discriminate].
    intros [= <-]. right. exists t. split; [done|]. split; [done|].
    apply (parse_guid_unset _ _ ("urn:uuid:" +:+ t)); [done|done|].
    right; right. exists "u"%char, ("rn:uuid:" +:+ t).
    split; [done|]. split; [discriminate|reflexivity].
Qed.

(** X7: the link built from an atom link element follows the [rel]
    attribute, whatever it is, and falls back to "alternate" only when the
    attribute is missing; the uri and the mimetype are the [href] and
    [type] attributes, absent when these are missing.  The handler never
    raises and returns its session. *)
Theorem parse_atom_link_relation (element : Element) (session : RSSSession) :
  exists l,
    parse_atom_link element session = Ok (Some l, session)
    /\ link_uri l = get element "href"
    /\ link_mimetype l = get element "type"
    /\ link_relation l = Some (default "alternate" (get element "rel"))
    /\ (forall rel l',
          parse_atom_link (with_attribute "rel" rel element) session
          = Ok (Some l', session) ->
          link_relation l' = Some rel
          /\ link_uri l' = link_uri l /\ link_mimetype l' = link_mimetype l).
Proof.
  eexists. split; [reflexivity|]. cbn [link_uri link_mimetype link_relation].
  do 3 (split; [reflexivity|]).
  intros rel l' [= <-]. unfold get, get_default, with_attribute.
  cbn [attrib link_uri link_mimetype link_relation].
  rewrite lookup_insert_eq, !lookup_insert_ne by discriminate. done.
Qed.

(** X8: the category handler never raises: an element without text gives
    a category without term, an element without [domain] attribute a
    category without scheme, and a [domain] attribute is the scheme
    whatever else the element carries. *)
Theorem parse_category_domain (element : Element) (session : RSSSession) :
  exists c,
    parse_category element session = Ok (Some c, session)
    /\ term c = text element
    /\ scheme_uri c = get element "domain"
    /\ (forall domain c',
          parse_category (with_attribute "domain" domain element) session
          = Ok (Some c', session) ->
          scheme_uri c' = Some domain /\ term c' = term c)
    /\ (forall key value c', key <> "domain" ->
          parse_category (with_attribute key value element) session
          = Ok (Some c', session) ->
          c' = c).
Proof.
  eexists. split; [reflexivity|]. cbn [term scheme_uri].
  do 2 (split; [reflexivity|]). split.
  - intros domain c' [= <-]. cbn [scheme_uri term with_attribute attrib text].
    by rewrite lookup_insert_eq.
  - intros key value c' Hne [= <-]. cbn [with_attribute attrib text].
    by rewrite lookup_insert_ne.
Qed.

End MoreHandlerProperties.

(** ** More on the entry point *)

Lemma mapM_Forall2 {A B} (f : A -> Result B) (l : list A) (l' : list B) :
  mapM f l = Ok l' <-> Forall2 (fun x y => f x = Ok y) l l'.
Proof.
  revert l'. induction l as [|x l IH]; intros l'; cbn [mapM].
  - split; [intros [= <-]; constructor|by inversion 1].
  - split.
    + intros (y & Hy & H)%bind_Ok_inv.
      apply bind_Ok_inv in H as (ys & Hys & [= <-]).
      constructor; [done|by apply IH].
    + inversion 1 as [|? y ? ys Hy Hys]; subst.
      apply IH in Hys. by rewrite Hy, bind_Ok, Hys.
Qed.

Lemma mapM_is_Ok {A B} (f : A -> Result B) (l : list A) :
  is_Ok (mapM f l) <-> forall x, x ∈ l -> is_Ok (f x).
Proof.
  induction l as [|x l IH]; cbn [mapM].
  - split; [by intros _ y ?%elem_of_nil|by exists []].
  - split.
    + intros [ys (y & Hy & H)%bind_Ok_inv].
      apply bind_Ok_inv in H as (ys' & Hys & _).
      intros z [->|Hz]%elem_of_cons; [by exists y|].
      apply IH; [by exists ys'|done].
    + intros Hall.
      destruct (Hall x (list_elem_of_here _ _)) as [y ->].
      destruct (proj2 IH) as [ys ->].
      { intros z Hz. apply Hall. by apply list_elem_of_further. }
      by eexists.
Qed.

Lemma mapM_first_Err {A B} (f : A -> Result B) pre x post e :
  (forall y, y ∈ pre -> is_Ok (f y)) -> f x = Err e ->
  mapM f (pre ++ x :: post) = Err e.
Proof.
  intros Hpre Hx. induction pre as [|y pre IH]; cbn [mapM app].
  - by rewrite Hx.
  - destruct (Hpre y (list_elem_of_here _ _)) as [b ->]. rewrite bind_Ok.
    rewrite IH; [done|]. intros z Hz. apply Hpre. by apply list_elem_of_further.
Qed.

Section MoreParseProperties.

Context {T : Types} {C : Collaborators}.

Implicit Types (w : World) (session : RSSSession).

Lemma call_parse_channel_found found session fd :
  call parse_channel found session = Ok fd -> exists channel, found = Some channel.
Proof. destruct found as [channel|]; [eauto|discriminate]. Qed.

(** X9: [parse_rss2] returns a feed exactly when the document parses to a
    tree, the tree has a channel, the channel is mapped without failure
    and, with [parse_entry=True], so is every item child of the channel;
    with [parse_entry=False] the items have no say. *)
Theorem parse_rss2_succeeds_iff w xml url parse_entry :
  is_Ok (parse_rss2 w xml url parse_entry) <->
  exists root channel,
    fromstring (normalize_xml_encoding xml) = Ok root
    /\ find "channel" root = Some channel
    /\ is_Ok (call parse_channel (Some channel) (session_of root url))
    /\ (parse_entry = true ->
        forall item, item ∈ findall "item" channel ->
                     is_Ok (call (parse_item w) (Some item) (session_of root url))).
Proof.
  rewrite parse_rss2_mapped. split.
  - intros [[feed hint] ([fd session] & Hm & _)%bind_Ok_inv].
    apply mapped_feed_inv in Hm as (root & mapped & Hroot & -> & Hcall & _ & _ & H).
    destruct (call_parse_channel_found _ _ _ Hcall) as [channel Hch].
    exists root, channel. rewrite <- Hch.
    do 2 (split; [done|]). split; [by exists mapped|].
    intros ->. destruct H as (channel' & l & Hch' & Hl & _).
    assert (channel' = channel) as -> by congruence.
    apply mapM_is_Ok. by exists l.
  - intros (root & channel & Hroot & Hch & [fd Hfd] & Hitems).
    unfold mapped_feed. rewrite Hroot, bind_Ok. cbn zeta.
    rewrite Hch, Hfd, bind_Ok.
    destruct parse_entry; [|by eexists].
    cbn [findall_in]. rewrite bind_Ok.
    destruct (proj2 (mapM_is_Ok
                (fun item => call (parse_item w) (Some item) (session_of root url))
                (findall "item" channel)) (Hitems eq_refl)) as [l ->].
    by eexists.
Qed.

(** X10: with [parse_entry=True] the entries of the feed are the item
    children of the channel, one entry each and in document order; every
    item is parsed with the session of the call, not with a session left
    by the item before it. *)
Theorem parse_rss2_entries w xml url feed hint :
  parse_rss2 w xml url true = Ok (feed, hint) ->
  exists root channel entry_list,
    fromstring (normalize_xml_encoding xml) = Ok root
    /\ find "channel" root = Some channel
    /\ entries feed = Some entry_list
    /\ length entry_list = length (findall "item" channel)
    /\ Forall2 (fun item entry =>
                  call (parse_item w) (Some item) (session_of root url) = Ok entry)
               (findall "item" channel) entry_list.
Proof.
  rewrite parse_rss2_mapped.
  intros ([fd session] & Hm & [= <- <-])%bind_Ok_inv.
  apply mapped_feed_inv in Hm
    as (root & mapped & Hroot & -> & _ & _ & _ & channel & l & Hch & Hl & ->).
  apply mapM_Forall2 in Hl.
  exists root, channel, l. rewrite entries_make_legal.
  do 3 (split; [done|]). split; [|done].
  symmetry. by eapply Forall2_length.
Qed.

(** X11: [parse_rss2] never returns a crawler hint, and the feed it
    returns has its entries assigned exactly when [parse_entry] is set. *)
Theorem parse_rss2_hint_and_entries w xml url parse_entry feed hint :
  parse_rss2 w xml url parse_entry = Ok (feed, hint) ->
  hint = None /\ (is_Some (entries feed) <-> parse_entry = true).
Proof.
  rewrite parse_rss2_mapped.
  intros ([fd session] & Hm & [= <- <-])%bind_Ok_inv.
  split; [done|]. rewrite entries_make_legal.
  apply mapped_feed_inv in Hm as (root & mapped & _ & -> & Hcall & _ & _ & H).
  destruct parse_entry.
  - destruct H as (channel & l & _ & _ & ->). split; [done|by eexists].
  - subst fd. rewrite (call_parse_channel_entries _ _ _ Hcall).
    split; [by intros [? [=]]|discriminate].
Qed.

(** X12: a guid element without text in any item makes [parse_rss2] fail
    with [parse_entry=True]: the [AttributeError] of the handler is not
    caught on the way.  With [parse_entry=False] the same document is
    parsed whenever its channel is. *)
Theorem guid_without_text_aborts_parse w xml url root channel item guid :
  fromstring (normalize_xml_encoding xml) = Ok root ->
  find "channel" root = Some channel ->
  item ∈ findall "item" channel ->
  guid ∈ children item ->
  is_named "guid" guid = true ->
  text guid = None ->
  is_Err (parse_rss2 w xml url true)
  /\ (is_Ok (call parse_channel (Some channel) (session_of root url)) ->
      is_Ok (parse_rss2 w xml url false)).
Proof.
  intros Hroot Hch Hitem Hguid Hnamed Htext. split.
  - destruct (is_Ok_or_Err (parse_rss2 w xml url true)) as [Hok|]; [|done].
    exfalso. apply parse_rss2_succeeds_iff in Hok
      as (root' & channel' & Hroot' & Hch' & _ & Hitems).
    assert (root' = root) as -> by congruence.
    assert (channel' = channel) as -> by congruence.
    destruct (Hitems eq_refl item Hitem) as [entry Hentry].
    unfold call, dispatch in Hentry.
    cbn [parser parse_item registered] in Hentry. rewrite bind_Ok in Hentry.
    apply bind_Ok_inv in Hentry as ([e s] & Hd & _).
    assert (Hfail : is_Err (dispatch_children (item_paths w) (children item)
                              (new Entry, session_of root url))).
    { apply (dispatch_children_is_Err _ _ guid); [done|].
      intros [e' s'].
      rewrite (fire_item_scalar w (mkPath "guid" None "id" (as_value VString parse_guid)));
        [|do 10 apply list_elem_of_further; apply list_elem_of_here|done..].
      cbn [handler]. unfold as_value, parse_guid. rewrite Htext.
      by exists AttributeError. }
    destruct Hfail as [err Herr]. congruence.
  - intros Hok. apply parse_rss2_succeeds_iff.
    exists root, channel. do 3 (split; [done|]). discriminate.
Qed.

(** X13: [parse_rss2] raises the first failure it meets, unchanged: that
    of the tree parser, else that of the channel, else, with
    [parse_entry=True], that of the first item that fails. *)
Theorem parse_rss2_first_failure w xml url e :
  (forall parse_entry,
     fromstring (normalize_xml_encoding xml) = Err e ->
     parse_rss2 w xml url parse_entry = Err e)
  /\ (forall parse_entry root,
        fromstring (normalize_xml_encoding xml) = Ok root ->
        call parse_channel (find "channel" root) (session_of root url) = Err e ->
        parse_rss2 w xml url parse_entry = Err e)
  /\ (forall root channel pre item post,
        fromstring (normalize_xml_encoding xml) = Ok root ->
        find "channel" root = Some channel ->
        is_Ok (call parse_channel (Some channel) (session_of root url)) ->
        findall "item" channel = pre ++ item :: post ->
        (forall x, x ∈ pre ->
                   is_Ok (call (parse_item w) (Some x) (session_of root url))) ->
        call (parse_item w) (Some item) (session_of root url) = Err e ->
        parse_rss2 w xml url true = Err e).
Proof.
  split; [|split].
  - intros parse_entry Hroot. unfold parse_rss2. by rewrite Hroot.
  - intros parse_entry root Hroot Hcall. unfold parse_rss2.
    rewrite Hroot, bind_Ok. cbn zeta.
    change (mkRSSSession url (guess_default_tzinfo root url))
      with (session_of root url).
    by rewrite Hcall.
  - intros root channel pre item post Hroot Hch [fd Hfd] Hitems Hpre Hitem.
    unfold parse_rss2. rewrite Hroot, bind_Ok. cbn zeta. rewrite Hch.
    change (mkRSSSession url (guess_default_tzinfo root url))
      with (session_of root url).
    rewrite Hfd, bind_Ok. cbn [findall_in]. rewrite bind_Ok, Hitems.
    by rewrite (mapM_first_Err _ pre item post e Hpre Hitem).
Qed.

End MoreParseProperties.

(** ** More on the dispatch of the registered paths *)

Section MoreDispatchProperties.

Context {T : Types} {C : Collaborators}.

Implicit Types (w : World) (e entity : Entity) (s session : RSSSession).

Lemma collection_append e name v :
  collection name (append name v e) = collection name e ++ [v].
Proof. unfold collection at 1, append. cbn. by rewrite lookup_insert_eq. Qed.

Lemma collection_apply_append e name v :
  multiple name = true ->
  collection name (apply e name (Some v)) = collection name e ++ [v].
Proof.
  intros Hm. unfold apply. rewrite Hm.
  unfold collection at 1, append. cbn. by rewrite lookup_insert_eq.
Qed.

Lemma collection_apply_other e target name v :
  target <> name ->
  collection name (apply e target v) = collection name e.
Proof.
  intros Hne. unfold apply. destruct v as [v|]; [|done].
  destruct (multiple target); [|done].
  unfold collection at 1, append. cbn. by rewrite lookup_insert_ne.
Qed.

(** What is in a collection stays in it. *)
Lemma collection_apply_keeps e target name v x :
  x ∈ collection name e -> x ∈ collection name (apply e target v).
Proof.
  intros Hx. destruct (decide (target = name)) as [->|Hne].
  - destruct v as [v|]; [|done]. unfold apply.
    destruct (multiple name) eqn:Hm; [|done].
    pose proof (collection_apply_append e name v Hm) as Happ.
    unfold apply in Happ. rewrite Hm in Happ. rewrite Happ.
    apply elem_of_app. by left.
  - by rewrite collection_apply_other.
Qed.

Lemma fire_keeps paths child e s e' s' name x :
  fire paths child (e, s) = Ok (e', s') ->
  x ∈ collection name e -> x ∈ collection name e'.
Proof.
  revert e s. induction paths as [|p paths IH]; intros e s; cbn [fire].
  - by intros [= <- <-].
  - destruct (path_matches p child); [|apply IH].
    intros ([value s1] & _ & H)%bind_Ok_inv Hx.
    apply IH in H; [done|]. by apply collection_apply_keeps.
Qed.

Lemma dispatch_children_keeps paths nodes e s e' s' name x :
  dispatch_children paths nodes (e, s) = Ok (e', s') ->
  x ∈ collection name e -> x ∈ collection name e'.
Proof.
  revert e s. induction nodes as [|c nodes IH]; intros e s; cbn [dispatch_children].
  - by intros [= <- <-].
  - intros ([e1 s1] & H1 & H2)%bind_Ok_inv Hx.
    eapply IH; [exact H2|]. by eapply fire_keeps.
Qed.

Lemma fire_collection_untouched paths name child e s e' s' :
  (forall p, p ∈ paths -> path_matches p child = true ->
             target_attribute p <> name) ->
  fire paths child (e, s) = Ok (e', s') ->
  collection name e' = collection name e.
Proof.
  revert e s. induction paths as [|p paths IH]; intros e s Hl; cbn [fire].
  - by intros [= <- <-].
  - assert (Hl' : forall q, q ∈ paths -> path_matches q child = true ->
                            target_attribute q <> name).
    { intros q Hq. apply Hl. by apply list_elem_of_further. }
    destruct (path_matches p child) eqn:Hm; [|by apply IH].
    intros ([value s1] & _ & H)%bind_Ok_inv.
    apply IH in H; [|done]. rewrite H. apply collection_apply_other.
    apply Hl; [apply list_elem_of_here|done].
Qed.

Ltac each_registered Hp :=
  rewrite !elem_of_cons, elem_of_nil in Hp;
  repeat (destruct Hp as [->|Hp]); [..|destruct Hp].

Ltac fire_named Ht :=
  cbn [local_name] in Ht;
  pose proof (is_named_tag _ _ Ht) as Htag;
  cbn [fire];
  match type of Ht with
  | is_named ?name _ = true => rewrite (path_matches_plain name), Ht
  end;
  rewrite !(path_matches_other _ _ _ _ _ _ Htag) by discriminate;
  cbn [handler target_attribute fst snd];
  match goal with
  | |- context [as_value ?inj ?f ?c ?s] =>
      destruct (as_value inj f c s) as [[? ?]|?]
  end;
  reflexivity.

(** A child named as a registration without namespace set is dispatched to
    that registration alone; under a channel, "link" apart. *)
Lemma fire_item_named w p child e s :
  p ∈ item_paths w ->
  namespace_set p = None ->
  is_named (local_name p) child = true ->
  fire (item_paths w) child (e, s)
  = '(v, s') ← handler p child s; Ok (apply e (target_attribute p) v, s').
Proof.
  intros Hp Hns Ht. unfold item_paths in *. each_registered Hp;
    first [ discriminate Hns | fire_named Ht ].
Qed.

Lemma fire_channel_named p child e s :
  p ∈ channel_paths ->
  namespace_set p = None ->
  local_name p <> "link" ->
  is_named (local_name p) child = true ->
  fire channel_paths child (e, s)
  = '(v, s') ← handler p child s; Ok (apply e (target_attribute p) v, s').
Proof.
  intros Hp Hns Hl Ht. unfold channel_paths in *. each_registered Hp;
    first [ discriminate Hns | by destruct Hl | fire_named Ht ].
Qed.


(** X14: resolving a source element returns exactly when the fetch, the
    format detection and the selected parser all return; the value is the
    feed of that parser, which is called on the fetched text with the
    [url] attribute as origin and with [parse_entry=False]; its hint is
    dropped and the session is returned as it was.  Nothing but the [url]
    attribute of the element is read. *)
Theorem parse_source_resolves w (element : Element) session v session' :
  (parse_source w element session = Ok (v, session') <->
   exists xml engine source hint,
     open_url w (get element "url") = Ok xml
     /\ get_format xml = Ok engine
     /\ engine w xml (get element "url") false = Ok (source, hint)
     /\ v = Some source /\ session' = session)
  /\ (forall element' : Element,
        get element' "url" = get element "url" ->
        parse_source w element' session = parse_source w element session).
Proof.
  split.
  - unfold parse_source. split.
    + intros (xml & Hxml & H)%bind_Ok_inv.
      apply bind_Ok_inv in H as (engine & Hengine & H).
      apply bind_Ok_inv in H as ([source hint] & Hsource & [= <- <-]).
      by exists xml, engine, source, hint.
    + intros (xml & engine & source & hint & -> & Hengine & Hsource & -> & ->).
      by rewrite bind_Ok, Hengine, bind_Ok, Hsource.
  - intros element' Hurl. unfold parse_source. by rewrite Hurl.
Qed.

(** X15: no enclosure and no comments element of an item is lost: each
    one is among the links of the entry, with its fixed relation. *)
Theorem item_links_keep_enclosures w (item child : Element) session entry :
  call (parse_item w) (Some item) session = Ok entry ->
  child ∈ children item ->
  (is_named "enclosure" child = true ->
   enclosure_of child ∈ collection "links" entry)
  /\ (is_named "comments" child = true ->
      comments_of child ∈ collection "links" entry).
Proof.
  unfold call, dispatch. cbn [parser parse_item registered]. rewrite bind_Ok.
  intros ([e3 s3] & Hd & [= <-])%bind_Ok_inv Hchild.
  apply list_elem_of_split in Hchild as (pre & post & Hkids).
  rewrite Hkids, dispatch_children_app in Hd.
  apply bind_Ok_inv in Hd as ([e1 s1] & _ & Hd).
  cbn [dispatch_children] in Hd.
  apply bind_Ok_inv in Hd as ([e2 s2] & Hfire & Hpost).
  split; intros Hnamed.
  - rewrite (fire_item_named w
               (mkPath "enclosure" None "links" (as_value VLink parse_enclosure)))
      in Hfire;
      [|do 5 apply list_elem_of_further; apply list_elem_of_here|done..].
    cbn in Hfire. injection Hfire as <- <-.
    eapply dispatch_children_keeps; [exact Hpost|].
    rewrite collection_append.
    apply elem_of_app. right. apply list_elem_of_here.
  - rewrite (fire_item_named w
               (mkPath "comments" None "links" (as_value VLink parse_comments)))
      in Hfire;
      [|do 7 apply list_elem_of_further; apply list_elem_of_here|done..].
    cbn in Hfire. injection Hfire as <- <-.
    eapply dispatch_children_keeps; [exact Hpost|].
    rewrite collection_append.
    apply elem_of_app. right. apply list_elem_of_here.
Qed.

Lemma dispatch_children_categories paths nodes e s e' s' :
  (forall c e0 s0, is_named "category" c = true ->
     fire paths c (e0, s0) = Ok (apply e0 "categories" (Some (category_of c)), s0)) ->
  (forall c p, is_named "category" c = false -> p ∈ paths ->
     path_matches p c = true -> target_attribute p <> "categories") ->
  dispatch_children paths nodes (e, s) = Ok (e', s') ->
  collection "categories" e'
  = collection "categories" e
    ++ map category_of (List.filter (is_named "category") nodes).
Proof.
  intros Hcat Hother. revert e s.
  induction nodes as [|c nodes IH]; intros e s; cbn [dispatch_children].
  - intros [= <- <-]. cbn. by rewrite app_nil_r.
  - intros ([e1 s1] & Hfire & Hrest)%bind_Ok_inv.
    apply IH in Hrest. rewrite Hrest. cbn [List.filter].
    destruct (is_named "category" c) eqn:Hc.
    + rewrite Hcat in Hfire by done. injection Hfire as <- <-.
      rewrite collection_append.
      cbn [map]. by rewrite <- app_assoc.
    + apply (fire_collection_untouched _ "categories") in Hfire;
        [by rewrite Hfire|].
      intros p. by apply Hother.
Qed.

(** X16: the categories of a feed or of an entry are the category
    children of its element, one category each and in document order,
    with the text as term and the [domain] attribute as scheme. *)
Theorem categories_in_document_order w (P : ParserBase) (node : Element)
    session entity :
  P = parse_channel \/ P = parse_item w ->
  call P (Some node) session = Ok entity ->
  collection "categories" entity
  = map category_of (List.filter (is_named "category") (children node)).
Proof.
  intros HP. unfold call, dispatch.
  destruct HP as [-> | ->]; cbn [parser parse_channel parse_item registered];
    rewrite bind_Ok; intros ([e3 s3] & Hd & [= <-])%bind_Ok_inv.
  - apply dispatch_children_categories in Hd; [exact Hd|..].
    + intros c e0 s0 Hc.
      by rewrite (fire_channel_named
                    (mkPath "category" None "categories"
                            (as_value VCategory parse_category)));
        [|do 3 apply list_elem_of_further; apply list_elem_of_here|..].
    + intros c p Hc Hp Hm. unfold channel_paths in Hp.
      each_registered Hp; cbn [target_attribute]; try discriminate.
      rewrite path_matches_plain in Hm. congruence.
  - apply dispatch_children_categories in Hd; [exact Hd|..].
    + intros c e0 s0 Hc.
      by rewrite (fire_item_named w
                    (mkPath "category" None "categories"
                            (as_value VCategory parse_category)));
        [|do 2 apply list_elem_of_further; apply list_elem_of_here|..].
    + intros c p Hc Hp Hm. unfold item_paths in Hp.
      each_registered Hp; cbn [target_attribute]; try discriminate.
      rewrite path_matches_plain in Hm. congruence.
Qed.

End MoreDispatchProperties.

(** ** More concrete runs *)

Lemma GUID_PATTERN_match_length_witness :
  (36 <= String.length ("{" +:+ uuid_sample +:+ "}") <= 39)%nat.
Proof.
  apply GUID_PATTERN_match_length. vm_compute; reflexivity.
Defined.

Lemma parse_guid_on_url_witness :
  parse_guid (guid_element "http://example.com/1" {[ "isPermalink" := "False" ]})
             sample_session
  = Ok (None, sample_session).
Proof.
  destruct (parse_guid_on_url
              (guid_element "http://example.com/1" {[ "isPermalink" := "False" ]})
              sample_session _ eq_refl eq_refl) as [_ H].
  exact H.
Defined.

Lemma parse_guid_unset_witness :
  parse_guid (guid_element " http://example.com/1" ∅) sample_session
  = Ok (None, sample_session)
  /\ parse_guid (guid_element "https://example.com/1" ∅) sample_session
     = Ok (None, sample_session)
  /\ parse_guid (guid_element "12345" ∅) sample_session
     = Ok (None, sample_session).
Proof.
  split; [|split].
  - apply (parse_guid_unset _ _ " http://example.com/1"); [reflexivity..|].
    right; right. exists " "%char, "http://example.com/1".
    split; [reflexivity|split; [discriminate|reflexivity]].
  - apply (parse_guid_unset _ _ "https://example.com/1"); [reflexivity..|].
    right; right. exists "h"%char, "ttps://example.com/1".
    split; [reflexivity|split; [discriminate|reflexivity]].
  - apply (parse_guid_unset _ _ "12345"); [reflexivity..|].
    left. cbn. lia.
Defined.

Lemma parse_guid_reads_text_and_flag_witness :
  parse_guid (with_attribute "isPermaLink" "false"
                (guid_element "http://example.com/1" ∅)) sample_session
  = parse_guid (guid_element "http://example.com/1" ∅) sample_session.
Proof.
  apply (parse_guid_reads_text_and_flag
           (guid_element "http://example.com/1" ∅)
           (guid_element "http://example.com/1" ∅)).
  discriminate.
Defined.

Lemma parse_guid_again_witness :
  parse_guid (guid_element ("urn:uuid:" +:+ uuid_sample) ∅) sample_session
  = Ok (None, sample_session).
Proof.
  destruct (parse_guid_again (guid_element uuid_sample ∅) sample_session
              ("urn:uuid:" +:+ uuid_sample))
    as [[Htext _]|(t & Htext & Hid & Hagain)].
  - vm_compute; reflexivity.
  - vm_compute in Htext. discriminate Htext.
  - exact Hagain.
Defined.

Lemma parse_rss2_entries_witness :
  match sample_parse_rss2 (offline 1000) xml_dated_items (Some sample_url) true with
  | Ok (feed, _) =>
      exists entry_list, entries feed = Some entry_list
                         /\ length entry_list = 2%nat
  | Err _ => False
  end.
Proof.
  destruct (sample_parse_rss2 (offline 1000) xml_dated_items
              (Some sample_url) true) as [[feed hint]|e] eqn:Hrun.
  - apply (parse_rss2_entries (C := sample_collaborators)) in Hrun
      as (root & channel & l & Hroot & Hch & He & Hlen & _).
    exists l. split; [exact He|]. rewrite Hlen.
    vm_compute in Hroot. injection Hroot as <-.
    vm_compute in Hch. injection Hch as <-. reflexivity.
  - vm_compute in Hrun. discriminate Hrun.
Defined.

Lemma parse_rss2_hint_and_entries_witness :
  exists feed,
    sample_parse_rss2 (offline 1000) xml_dated_items (Some sample_url) false
    = Ok (feed, None)
    /\ ~ is_Some (entries feed).
Proof.
  pose proof (parse_rss2_hint_and_entries (C := sample_collaborators)
                (offline 1000) xml_dated_items (Some sample_url) false) as H.
  eexists. split; [vm_compute; reflexivity|].
  intros Hsome. eapply (H _ None) in Hsome; [discriminate Hsome|].
  vm_compute; reflexivity.
Defined.

Lemma guid_without_text_aborts_parse_witness :
  is_Err (parse_rss2 (C := tree_collaborators doc_podcast)
            (offline 1000) "" (Some sample_url) true)
  /\ is_Ok (parse_rss2 (C := tree_collaborators doc_podcast)
              (offline 1000) "" (Some sample_url) false).
Proof.
  destruct (guid_without_text_aborts_parse (C := tree_collaborators doc_podcast)
              (offline 1000) "" (Some sample_url)
              doc_podcast channel_podcast item_broken (leaf "guid" None))
    as [Herr Hok].
  - reflexivity.
  - reflexivity.
  - apply (list_elem_of_further item_broken item_episode [item_broken]).
    apply list_elem_of_here.
  - apply list_elem_of_here.
  - reflexivity.
  - reflexivity.
  - split; [exact Herr|]. apply Hok. eexists. vm_compute; reflexivity.
Defined.

Lemma parse_rss2_first_failure_witness :
  parse_rss2 (C := tree_collaborators doc_podcast)
    (offline 1000) "" (Some sample_url) true
  = Err AttributeError.
Proof.
  destruct (parse_rss2_first_failure (C := tree_collaborators doc_podcast)
              (offline 1000) "" (Some sample_url) AttributeError)
    as (_ & _ & Hitem).
  apply (Hitem doc_podcast channel_podcast [item_episode] item_broken []).
  - reflexivity.
  - reflexivity.
  - eexists. vm_compute; reflexivity.
  - reflexivity.
  - intros x ->%list_elem_of_singleton. eexists. vm_compute; reflexivity.
  - vm_compute; reflexivity.
Defined.

Lemma item_links_keep_enclosures_witness :
  exists entry,
    call (C := sample_collaborators) (parse_item (C := sample_collaborators) (offline 0))
         (Some item_episode) sample_session = Ok entry
    /\ enclosure_of enclosure_audio ∈ collection "links" entry
    /\ comments_of comments_thread ∈ collection "links" entry.
Proof.
  pose proof (item_links_keep_enclosures (C := sample_collaborators)
                (offline 0) item_episode) as H.
  eexists. split; [vm_compute; reflexivity|].
  split.
  - eapply (H enclosure_audio sample_session);
      [vm_compute; reflexivity| |reflexivity].
    do 2 apply list_elem_of_further. apply list_elem_of_here.
  - eapply (H comments_thread sample_session);
      [vm_compute; reflexivity| |reflexivity].
    do 3 apply list_elem_of_further. apply list_elem_of_here.
Defined.

Lemma categories_in_document_order_witness :
  exists feed,
    call (C := sample_collaborators) (parse_channel (C := sample_collaborators))
         (Some channel_podcast) sample_session = Ok feed
    /\ collection "categories" feed
       = [category_of category_tech; category_of category_news].
Proof.
  pose proof (categories_in_document_order (C := sample_collaborators)
                (offline 0) (parse_channel (C := sample_collaborators))
                channel_podcast sample_session) as H.
  eexists. split; [vm_compute; reflexivity|].
  apply H; [by left|vm_compute; reflexivity].
Defined.
